(** * laravel-dusk-mcp: a shallow embedding of [src/index.ts]

    The server is a single TypeScript module.  This development embeds
    - the result parser [parseTestResults] together with the pieces of the
      JavaScript runtime it calls (regular-expression matching,
      [String.prototype.split], [trim], [parseInt], number subtraction),
    - the project validator [isLaravelProject] and the runner [runCommand],
    - the two request handlers (resource reading and tool dispatch),
    and proves the properties the specification states about them.

    JavaScript strings are sequences of UTF-16 code units; a code unit is
    modelled as an [N] and a string as a list of them. *)

From Stdlib Require Import String Ascii.
From Stdlib Require Import List ZArith NArith Lia Bool.
Import ListNotations.

Set Implicit Arguments.

(** ** Strings *)

Definition char := N.
Definition jsstring := list char.

(** An ASCII literal as a JavaScript string. *)
Definition lit (s : string) : jsstring :=
  map N_of_ascii (list_ascii_of_string s).
Arguments lit s%_string.

Definition nl : char := 10%N.
Definition dquote : char := 34%N.

Definition char_eqb (a b : char) : bool := N.eqb a b.

Fixpoint str_eqb (a b : jsstring) : bool :=
  match a, b with
  | [], [] => true
  | x :: a', y :: b' => char_eqb x y && str_eqb a' b'
  | _, _ => false
  end.

(** [strip_prefix p s] is [Some rest] when [s = p ++ rest]. *)
Fixpoint strip_prefix (p s : jsstring) : option jsstring :=
  match p with
  | [] => Some s
  | x :: p' =>
      match s with
      | y :: s' => if char_eqb x y then strip_prefix p' s' else None
      | [] => None
      end
  end.

(** [String.prototype.startsWith]. *)
Definition startsWith (s p : jsstring) : bool :=
  match strip_prefix p s with Some _ => true | None => false end.

(** [String.prototype.endsWith]. *)
Definition endsWith (s p : jsstring) : bool := startsWith (rev s) (rev p).

(** [String.prototype.substring] for indices within bounds, [p <= q]. *)
Definition substring (s : jsstring) (p q : nat) : jsstring :=
  firstn (q - p) (skipn p s).

(** ECMAScript WhiteSpace and LineTerminator code points. *)
Definition is_white_space (c : char) : bool :=
  (existsb (N.eqb c) [9; 11; 12; 32; 160; 5760; 8239; 8287; 12288; 65279]
   || ((8192 <=? c) && (c <=? 8202)))%N.

Definition is_line_terminator (c : char) : bool :=
  existsb (N.eqb c) [10; 13; 8232; 8233]%N.

(** The class [\s], also the set stripped by [trim]. *)
Definition is_space (c : char) : bool :=
  is_white_space c || is_line_terminator c.

(** The class [\d]. *)
Definition is_digit (c : char) : bool := ((48 <=? c) && (c <=? 57))%N.

(** [.] without the [s] flag, and with it. *)
Definition is_dot (c : char) : bool := negb (is_line_terminator c).
Definition is_any (c : char) : bool := true.

Fixpoint drop_while (p : char -> bool) (s : jsstring) : jsstring :=
  match s with
  | c :: s' => if p c then drop_while p s' else s
  | [] => []
  end.

Definition trimStart (s : jsstring) : jsstring := drop_while is_space s.

(** [String.prototype.trim]. *)
Definition trim (s : jsstring) : jsstring :=
  rev (drop_while is_space (rev (drop_while is_space s))).

(** [s.split(sep)] for a one-unit separator string: always at least one
    piece. *)
Fixpoint split_char (sep : char) (s : jsstring) : list jsstring :=
  match s with
  | [] => [[]]
  | c :: s' =>
      if char_eqb c sep then [] :: split_char sep s'
      else match split_char sep s' with
           | piece :: rest => (c :: piece) :: rest
           | [] => [[c]]
           end
  end.

(** [Array.prototype.join] with a separator string. *)
Fixpoint join (sep : jsstring) (l : list jsstring) : jsstring :=
  match l with
  | [] => []
  | [x] => x
  | x :: rest => x ++ sep ++ join sep rest
  end.

(** ** Regular expressions

    The fragment of the ECMAScript pattern language the module uses:
    literals, greedy and lazy [+] over a character class, numbered capture
    groups, and the greedy optional group [(?: ... )?].  Matching is the
    backtracking semantics of the language, written in continuation-passing
    style: a matcher receives the rest of the input and the captures so far,
    and the continuation decides whether the rest of the pattern matches. *)

Inductive regex : Type :=
| Str (l : jsstring)
| PlusGreedy (p : char -> bool)
| PlusLazy (p : char -> bool)
| Seq (r1 r2 : regex)
| Group (i : nat) (r : regex)
| Opt (r : regex).

Declare Scope regex_scope.
Delimit Scope regex_scope with re.
Bind Scope regex_scope with regex.
Infix ";;" := Seq (at level 61, right associativity) : regex_scope.

(** Captures: group number to captured substring; unset is [undefined]. *)
Definition captures := nat -> option jsstring.
Definition no_captures : captures := fun _ => None.
Definition set_capture (i : nat) (v : jsstring) (c : captures) : captures :=
  fun j => if Nat.eqb j i then Some v else c j.

(** The part of [s] consumed when the rest is [s']. *)
Definition consumed (s s' : jsstring) : jsstring :=
  firstn (length s - length s') s.

Section Matcher.
Variable R : Type.

(** [p+]: longest run first, giving characters back on failure. *)
Fixpoint plus_greedy (p : char -> bool) (s : jsstring)
         (k : jsstring -> option R) : option R :=
  match s with
  | c :: s' =>
      if p c then
        match plus_greedy p s' k with
        | Some r => Some r
        | None => k s'
        end
      else None
  | [] => None
  end.

(** [p+?]: shortest run first, taking one more character on failure. *)
Fixpoint plus_lazy (p : char -> bool) (s : jsstring)
         (k : jsstring -> option R) : option R :=
  match s with
  | c :: s' =>
      if p c then
        match k s' with
        | Some r => Some r
        | None => plus_lazy p s' k
        end
      else None
  | [] => None
  end.

Fixpoint matcher (r : regex) (s : jsstring) (c : captures)
         (k : jsstring -> captures -> option R) : option R :=
  match r with
  | Str l =>
      match strip_prefix l s with
      | Some s' => k s' c
      | None => None
      end
  | PlusGreedy p => plus_greedy p s (fun s' => k s' c)
  | PlusLazy p => plus_lazy p s (fun s' => k s' c)
  | Seq r1 r2 => matcher r1 s c (fun s1 c1 => matcher r2 s1 c1 k)
  | Group i r1 =>
      matcher r1 s c (fun s' c' => k s' (set_capture i (consumed s s') c'))
  | Opt r1 =>
      (* an iteration that consumes nothing is rejected *)
      match matcher r1 s c
              (fun s' c' =>
                 if Nat.eqb (length s') (length s) then None else k s' c')
      with
      | Some x => Some x
      | None => k s c
      end
  end.
End Matcher.

(** The result of [RegExp.prototype.exec]: index, matched text, captures. *)
Record match_result : Type := {
  m_index : nat;
  m_whole : jsstring;
  m_caps : captures;
}.

(** A match anchored at the head of [s]: the rest and the captures. *)
Definition match_here (r : regex) (s : jsstring)
  : option (jsstring * captures) :=
  matcher r s no_captures (fun s' c => Some (s', c)).

(** Leftmost match from position [idx] on, [s] being the input from there. *)
Fixpoint search_from (r : regex) (idx : nat) (s : jsstring)
  : option match_result :=
  match match_here r s with
  | Some (s', c) =>
      Some {| m_index := idx; m_whole := consumed s s'; m_caps := c |}
  | None =>
      match s with
      | [] => None
      | _ :: t => search_from r (S idx) t
      end
  end.

(** [s.match(r)] for a non-global [r], and [r.exec(s)] for a freshly
    created global one (its [lastIndex] is 0). *)
Definition regex_exec (r : regex) (s : jsstring) : option match_result :=
  search_from r 0 s.

(** [s.split(r)] for a pattern without capture groups, after the loop of
    the language definition: [p] is where the current piece starts, [q]
    the position tried.  [None] is running out of fuel. *)
Fixpoint split_loop (r : regex) (s : jsstring) (fuel p q : nat)
  : option (list jsstring) :=
  match fuel with
  | O => None
  | S fuel' =>
      if Nat.ltb q (length s) then
        match match_here r (skipn q s) with
        | None => split_loop r s fuel' p (S q)
        | Some (s', _) =>
            let e := length s - length s' in
            if Nat.eqb e p then split_loop r s fuel' p (S q)
            else
              match split_loop r s fuel' e e with
              | Some rest => Some (substring s p q :: rest)
              | None => None
              end
        end
      else Some [substring s p (length s)]
  end.

Definition split_regex (r : regex) (s : jsstring) : option (list jsstring) :=
  match s with
  | [] =>
      match match_here r [] with
      | Some _ => Some []
      | None => Some [[]]
      end
  | _ => split_loop r s (2 * length s + 2) 0 0
  end.

(** ** Numbers

    A JavaScript number is an IEEE 754 double.  The numbers the module
    computes with are integers (results of [parseInt] on digit runs and their
    differences), so a number is modelled as an integer-valued double: an
    integer that a double represents exactly, or an infinity, or NaN. *)

Inductive number : Type :=
| Finite (z : Z)
| PosInf
| NegInf
| NaN.

(** The double nearest to the integer [z], ties to even: integers below
    [2^53] in magnitude are exact, larger ones keep 53 significant bits,
    and what rounds to [2^1024] or more is infinite. *)
Definition round_double (z : Z) : number :=
  let n := Z.abs z in
  if (n <? 2 ^ 53)%Z then Finite z
  else
    let e := (Z.log2 n - 52)%Z in
    let q := (n / 2 ^ e)%Z in
    let r := (n mod 2 ^ e)%Z in
    let half := (2 ^ (e - 1))%Z in
    let q' := match (r ?= half)%Z with
              | Lt => q
              | Gt => (q + 1)%Z
              | Eq => if Z.even q then q else (q + 1)%Z
              end in
    let m := (q' * 2 ^ e)%Z in
    if (m <? 2 ^ 1024)%Z then Finite (Z.sgn z * m)
    else if (0 <? z)%Z then PosInf else NegInf.

(** The [-] operator on numbers. *)
Definition num_sub (a b : number) : number :=
  match a, b with
  | NaN, _ | _, NaN => NaN
  | PosInf, PosInf | NegInf, NegInf => NaN
  | PosInf, _ => PosInf
  | NegInf, _ => NegInf
  | Finite _, PosInf => NegInf
  | Finite _, NegInf => PosInf
  | Finite x, Finite y => round_double (x - y)
  end.

(** [a > 0]. *)
Definition num_positive (a : number) : bool :=
  match a with
  | Finite z => (0 <? z)%Z
  | PosInf => true
  | NegInf | NaN => false
  end.

(** The value of a digit in the given radix, if it is one. *)
Definition digit_value (radix : Z) (c : char) : option Z :=
  let v := if is_digit c then Some (Z.of_N c - 48)%Z
           else if ((97 <=? c) && (c <=? 122))%N then Some (Z.of_N c - 87)%Z
           else if ((65 <=? c) && (c <=? 90))%N then Some (Z.of_N c - 55)%Z
           else None in
  match v with
  | Some d => if (d <? radix)%Z then Some d else None
  | None => None
  end.

(** The longest prefix of digits of the radix, as digit values. *)
Fixpoint take_digits (radix : Z) (s : jsstring) : list Z :=
  match s with
  | c :: s' =>
      match digit_value radix c with
      | Some d => d :: take_digits radix s'
      | None => []
      end
  | [] => []
  end.

Definition digits_value (radix : Z) (ds : list Z) : Z :=
  fold_left (fun acc d => (acc * radix + d)%Z) ds 0%Z.

(** [parseInt(s)] without a radix argument: leading white space and a sign
    are skipped, a [0x] prefix selects radix 16, the longest digit prefix is
    read, and an empty one gives NaN. *)
Definition parseInt (s : jsstring) : number :=
  let s1 := trimStart s in
  let '(sign, s2) :=
    match s1 with
    | c :: t => if (c =? 45)%N then ((-1)%Z, t)
                else if (c =? 43)%N then (1%Z, t)
                else (1%Z, s1)
    | [] => (1%Z, s1)
    end in
  let '(radix, s3) :=
    match s2 with
    | z :: x :: t =>
        if ((z =? 48) && ((x =? 120) || (x =? 88)))%N then (16%Z, t)
        else (10%Z, s2)
    | _ => (10%Z, s2)
    end in
  match take_digits radix s3 with
  | [] => NaN
  | ds => round_double (sign * digits_value radix ds)
  end.

(** ** Errors *)

(** What a [throw] carries: a [TypeError] of the runtime (a method called on
    [undefined]) or [new Error(message)].  [Exhausted] marks a loop of this
    model that ran out of fuel; it is shown never to happen. *)
Inductive error : Type :=
| TypeError (message : jsstring)
| Error (message : jsstring)
| Exhausted.

Inductive outcome (A : Type) : Type :=
| Return (a : A)
| Throw (e : error).
Arguments Return {A} a.
Arguments Throw {A} e.

Definition obind {A B : Type} (x : outcome A) (f : A -> outcome B)
  : outcome B :=
  match x with
  | Return a => f a
  | Throw e => Throw e
  end.

(** A string is truthy when it is not empty. *)
Definition truthy (s : jsstring) : bool :=
  match s with [] => false | _ => true end.

(** [v || d] for a string or [undefined]. *)
Definition or_default (v : option jsstring) (d : jsstring) : jsstring :=
  match v with
  | Some s => if truthy s then s else d
  | None => d
  end.

(** [parseInt] applied to a value that may be [undefined]: the string
    [undefined] has no digits. *)
Definition parseInt_value (v : option jsstring) : number :=
  match v with
  | Some s => parseInt s
  | None => NaN
  end.

(** ** The result parser *)

Record failure : Type := {
  test : jsstring;
  message : jsstring;
}.

(** The object [parseTestResults] returns.  [duration] is assigned a
    capture, which the language allows to be [undefined] ([None]). *)
Record summary : Type := {
  total : number;
  passed : number;
  failed : number;
  skipped : number;
  duration : option jsstring;
  failures : list failure;
}.

(** [/Tests:\s+(\d+),\s+Assertions:\s+(\d+)(?:,\s+Failures:\s+(\d+))?/] *)
Definition summaryRegex : regex :=
  (Str (lit "Tests:") ;; PlusGreedy is_space ;; Group 1 (PlusGreedy is_digit) ;;
   Str (lit ",") ;; PlusGreedy is_space ;; Str (lit "Assertions:") ;;
   PlusGreedy is_space ;; Group 2 (PlusGreedy is_digit) ;;
   Opt (Str (lit ",") ;; PlusGreedy is_space ;; Str (lit "Failures:") ;;
        PlusGreedy is_space ;; Group 3 (PlusGreedy is_digit)))%re.

(** [/Time:\s+(.+)/] *)
Definition durationRegex : regex :=
  (Str (lit "Time:") ;; PlusGreedy is_space ;; Group 1 (PlusGreedy is_dot))%re.

(** [/FAILURES!\n(.+?)\n\n/gs] *)
Definition failureRegex : regex :=
  (Str (lit "FAILURES!" ++ [nl]) ;; Group 1 (PlusLazy is_any) ;;
   Str [nl; nl])%re.

(** [/\d+\)/], the separator of the failure section. *)
Definition ordinalRegex : regex :=
  (PlusGreedy is_digit ;; Str (lit ")"))%re.

(** The body of the [forEach] callback: the failures to push for one piece
    of the failure section. *)
Definition parseFailure (piece : jsstring) : outcome (list failure) :=
  if truthy (trim piece) then
    let lines := split_char nl (trim piece) in
    if Nat.ltb 0 (length lines) then
      match nth_error lines 0 with
      | Some first =>
          Return [{| test := trim first;
                     message := trim (join [nl] (skipn 1 lines)) |}]
      | None =>
          Throw (TypeError (lit "Cannot read properties of undefined"))
      end
    else Return []
  else Return [].

Fixpoint forEachFailure (pieces : list jsstring) (acc : list failure)
  : outcome (list failure) :=
  match pieces with
  | [] => Return acc
  | piece :: rest =>
      obind (parseFailure piece) (fun fs => forEachFailure rest (acc ++ fs))
  end.

Definition parseTestResults (output : jsstring) : outcome summary :=
  let lines := split_char nl output in
  let summary0 :=
    {| total := Finite 0; passed := Finite 0; failed := Finite 0;
       skipped := Finite 0; duration := Some []; failures := [] |} in
  (* Parse PHPUnit output *)
  let summary1 :=
    match regex_exec summaryRegex output with
    | Some summaryMatch =>
        let t := parseInt_value (m_caps summaryMatch 1) in
        let f := parseInt (or_default (m_caps summaryMatch 3) (lit "0")) in
        {| total := t; passed := num_sub t f; failed := f;
           skipped := skipped summary0; duration := duration summary0;
           failures := failures summary0 |}
    | None => summary0
    end in
  (* Parse duration *)
  let summary2 :=
    match regex_exec durationRegex output with
    | Some durationMatch =>
        {| total := total summary1; passed := passed summary1;
           failed := failed summary1; skipped := skipped summary1;
           duration := m_caps durationMatch 1;
           failures := failures summary1 |}
    | None => summary1
    end in
  (* Parse failures *)
  match regex_exec failureRegex output with
  | Some failureMatch =>
      match m_caps failureMatch 1 with
      | Some failureSection =>
          match split_regex ordinalRegex failureSection with
          | Some individualFailures =>
              obind (forEachFailure individualFailures (failures summary2))
                (fun fs =>
                   Return {| total := total summary2;
                             passed := passed summary2;
                             failed := failed summary2;
                             skipped := skipped summary2;
                             duration := duration summary2;
                             failures := fs |})
          | None => Throw Exhausted
          end
      | None =>
          Throw (TypeError (lit "Cannot read properties of undefined"))
      end
  | None => Return summary2
  end.

(** ** Paths

    [path.join] and [path.resolve] of the POSIX flavour of Node's [path]
    module: segments are separated by [/], empty and [.] segments are
    dropped and [..] removes the segment before it. *)

Definition slash : char := 47%N.

Definition is_absolute (p : jsstring) : bool :=
  match p with
  | c :: _ => char_eqb c slash
  | [] => false
  end.

Definition ends_with_slash (p : jsstring) : bool := is_absolute (rev p).

(** [normalizeString]: [stack] holds the segments kept so far, last one
    first. *)
Fixpoint normalize_segments (allowAboveRoot : bool) (segs stack : list jsstring)
  : list jsstring :=
  match segs with
  | [] => rev stack
  | seg :: rest =>
      if str_eqb seg [] || str_eqb seg (lit ".")
      then normalize_segments allowAboveRoot rest stack
      else if str_eqb seg (lit "..") then
        match stack with
        | top :: below =>
            if str_eqb top (lit "..")
            then normalize_segments allowAboveRoot rest
                   (if allowAboveRoot then lit ".." :: stack else stack)
            else normalize_segments allowAboveRoot rest below
        | [] =>
            normalize_segments allowAboveRoot rest
              (if allowAboveRoot then [lit ".."] else [])
        end
      else normalize_segments allowAboveRoot rest (seg :: stack)
  end.

Definition normalizeString (p : jsstring) (allowAboveRoot : bool) : jsstring :=
  join [slash] (normalize_segments allowAboveRoot (split_char slash p) []).

(** [path.normalize]. *)
Definition path_normalize (p : jsstring) : jsstring :=
  match p with
  | [] => lit "."
  | _ =>
      let isAbsolute := is_absolute p in
      let trailingSeparator := ends_with_slash p in
      let r := normalizeString p (negb isAbsolute) in
      match r with
      | [] =>
          if isAbsolute then [slash]
          else if trailingSeparator then lit "./" else lit "."
      | _ =>
          let r' := if trailingSeparator then r ++ [slash] else r in
          if isAbsolute then slash :: r' else r'
      end
  end.

(** [path.join(...args)]. *)
Definition path_join (args : list jsstring) : jsstring :=
  match filter truthy args with
  | [] => lit "."
  | parts => path_normalize (join [slash] parts)
  end.

(** [path.resolve(p)] with one argument, [cwd] being [process.cwd()]. *)
Definition path_resolve (cwd p : jsstring) : jsstring :=
  let '(resolvedPath, resolvedAbsolute) :=
    let r0 := if truthy p then p ++ [slash] else [] in
    if is_absolute p then (r0, true)
    else if truthy cwd then (cwd ++ [slash] ++ r0, is_absolute cwd)
    else (r0, false) in
  let r := normalizeString resolvedPath (negb resolvedAbsolute) in
  if resolvedAbsolute then slash :: r
  else if truthy r then r else lit ".".

(** ** JSON values *)

#[local] Set Warnings "-register-all".
Inductive json : Type :=
| JNull
| JBool (b : bool)
| JNumber (text : jsstring)
| JString (s : jsstring)
| JArray (items : list json)
| JObject (members : list (jsstring * json)).

(** The own property [key] of an object built by [JSON.parse]. *)
Fixpoint lookup (key : jsstring) (members : list (jsstring * json))
  : option json :=
  match members with
  | [] => None
  | (k, v) :: rest => if str_eqb k key then Some v else lookup key rest
  end.

(** [v.key] and [v[key]] for a key that no prototype defines: a
    [TypeError] on [null], [undefined] ([None]) on values without it. *)
Definition get_member (v : json) (key : jsstring) : outcome (option json) :=
  match v with
  | JNull =>
      Throw (TypeError (lit "Cannot read properties of null"))
  | JObject members => Return (lookup key members)
  | JBool _ | JNumber _ | JString _ | JArray _ => Return None
  end.

(** [v?.[key]]: [undefined] when [v] is [undefined] or [null]. *)
Definition get_member_opt (v : option json) (key : jsstring) : option json :=
  match v with
  | Some (JObject members) => lookup key members
  | _ => None
  end.

Definition is_defined (v : option json) : bool :=
  match v with Some _ => true | None => false end.

(** ** The platform

    What the module reaches through Node's [fs], [child_process], [glob]
    and the globals: the state of the outside world (files, processes) and
    the operations on it.  A failing operation gives the message of the
    error it rejects with. *)

Record Platform : Type := {
  World : Type;
  (** [process.cwd()] and [process.env.HOME || process.env.USERPROFILE || ''] *)
  process_cwd : jsstring;
  homeDir : jsstring;
  (** [fs.access(p)] resolves *)
  fs_access : World -> jsstring -> bool;
  (** [fs.readFile(p, 'utf-8')] *)
  fs_readFile : World -> jsstring -> jsstring + jsstring;
  (** [(await fs.readFile(p)).toString('base64')] *)
  fs_readFile_base64 : World -> jsstring -> jsstring + jsstring;
  (** [fs.readdir(p)] *)
  fs_readdir : World -> jsstring -> jsstring + list jsstring;
  (** [(await fs.stat(p)).isDirectory()] *)
  fs_stat_isDirectory : World -> jsstring -> jsstring + bool;
  (** [fs.unlink(p)] *)
  fs_unlink : World -> jsstring -> jsstring + World;
  (** [glob.sync(pattern)] *)
  glob_sync : World -> jsstring -> jsstring + list jsstring;
  (** [path.relative(from, to)] *)
  path_relative : jsstring -> jsstring -> jsstring;
  (** [JSON.parse(text)], [None] when it throws *)
  JSON_parse : jsstring -> option json;
  (** [execAsync(command, { cwd })]: the process runs to its end; a
      rejection carries [error.message], success [stdout] and [stderr] *)
  execAsync : jsstring -> jsstring -> World ->
              (jsstring + jsstring * jsstring) * World;
  (** [exec(command, { cwd })] without waiting; [Some message] when the
      call itself throws *)
  exec : jsstring -> jsstring -> World -> option jsstring * World;
  (** [String(n)] *)
  number_toString : number -> jsstring;
}.

(** ** Configuration and state *)

Record Config : Type := {
  laravelPath : jsstring;
  screenshotsPath : jsstring;
  logsPath : jsstring;
}.

(** The module-level [config] for a given [LARAVEL_PATH || cwd]. *)
Definition initial_config (path : jsstring) : Config :=
  {| laravelPath := path;
     screenshotsPath := lit "tests/Browser/screenshots";
     logsPath := lit "storage/logs/dusk" |}.

Definition set_laravelPath (c : Config) (p : jsstring) : Config :=
  {| laravelPath := p;
     screenshotsPath := screenshotsPath c;
     logsPath := logsPath c |}.

(** A content item of a tool response. *)
Record content_item : Type := {
  type : jsstring;
  text : jsstring;
}.

Definition text_content (t : jsstring) : list content_item :=
  [{| type := lit "text"; text := t |}].

(** The arguments of a tool call, with the types the input schemas
    declare; a missing argument is [None]. *)
Record Arguments : Type := {
  arg_path : option jsstring;
  arg_test : option jsstring;
  arg_filter : option jsstring;
  arg_group : option jsstring;
  arg_headless : option bool;
  arg_version : option jsstring;
  arg_port : option number;
}.

Definition no_arguments : Arguments :=
  {| arg_path := None; arg_test := None; arg_filter := None;
     arg_group := None; arg_headless := None; arg_version := None;
     arg_port := None |}.

(** [args?.field]: [undefined] when [args] itself is. *)
Definition arg {A : Type} (field : Arguments -> option A)
           (args : option Arguments) : option A :=
  match args with
  | Some a => field a
  | None => None
  end.

Definition truthy_string (v : option jsstring) : bool :=
  match v with Some s => truthy s | None => false end.

Definition truthy_bool (v : option bool) : bool :=
  match v with Some b => b | None => false end.

Definition truthy_number (v : option number) : bool :=
  match v with
  | Some (Finite z) => negb (Z.eqb z 0)
  | Some NaN | None => false
  | Some _ => true
  end.

(** A string argument inside a template literal. *)
Definition interpolate (v : option jsstring) : jsstring :=
  match v with Some s => s | None => lit "undefined" end.

(** [error.message]. *)
Definition error_message (e : error) : jsstring :=
  match e with
  | TypeError m | Error m => m
  | Exhausted => []
  end.

(** [[...new Set(l)]]: duplicates removed, first occurrences kept. *)
Fixpoint dedup (seen l : list jsstring) : list jsstring :=
  match l with
  | [] => []
  | x :: rest =>
      if existsb (str_eqb x) seen then dedup seen rest
      else x :: dedup (x :: seen) rest
  end.

(** [s.replace(pat, '')] for a string pattern: the first occurrence is
    removed. *)
Fixpoint remove_first (pat s : jsstring) : jsstring :=
  match strip_prefix pat s with
  | Some rest => rest
  | None =>
      match s with
      | [] => []
      | c :: s' => c :: remove_first pat s'
      end
  end.

(** ** The tool catalog *)

Record Property : Type := {
  prop_name : jsstring;
  prop_type : jsstring;
  prop_description : jsstring;
  prop_default : option json;
}.

Record ToolDefinition : Type := {
  name : jsstring;
  description : jsstring;
  properties : list Property;
  required : list jsstring;
}.

Definition tools : list ToolDefinition :=
  [ {| name := lit "set_laravel_project";
       description := lit "Set the Laravel project path to work with";
       properties :=
         [ {| prop_name := lit "path"; prop_type := lit "string";
              prop_description := lit "Absolute path to the Laravel project";
              prop_default := None |} ];
       required := [lit "path"] |};
    {| name := lit "list_laravel_projects";
       description := lit "List available Laravel projects on the system";
       properties := [];
       required := [] |};
    {| name := lit "run_dusk_test";
       description := lit "Run Laravel Dusk browser tests";
       properties :=
         [ {| prop_name := lit "test"; prop_type := lit "string";
              prop_description :=
                lit "Specific test file or method to run (optional)";
              prop_default := None |};
           {| prop_name := lit "filter"; prop_type := lit "string";
              prop_description := lit "Filter tests by name pattern";
              prop_default := None |};
           {| prop_name := lit "group"; prop_type := lit "string";
              prop_description := lit "Run tests in a specific group";
              prop_default := None |};
           {| prop_name := lit "headless"; prop_type := lit "boolean";
              prop_description :=
                lit "Run tests in headless mode (default: true)";
              prop_default := Some (JBool true) |} ];
       required := [] |};
    {| name := lit "list_dusk_tests";
       description := lit "List all available Dusk test files";
       properties := [];
       required := [] |};
    {| name := lit "check_dusk_environment";
       description := lit "Check if Dusk environment is properly configured";
       properties := [];
       required := [] |};
    {| name := lit "clear_dusk_screenshots";
       description := lit "Clear all Dusk screenshot files";
       properties := [];
       required := [] |};
    {| name := lit "install_chrome_driver";
       description := lit "Install or update ChromeDriver for Dusk";
       properties :=
         [ {| prop_name := lit "version"; prop_type := lit "string";
              prop_description :=
                lit "Specific ChromeDriver version (optional)";
              prop_default := None |} ];
       required := [] |};
    {| name := lit "start_dev_server";
       description := lit "Start Laravel development server for Dusk tests";
       properties :=
         [ {| prop_name := lit "port"; prop_type := lit "number";
              prop_description := lit "Port number (default: 8000)";
              prop_default := Some (JNumber (lit "8000")) |} ];
       required := [] |} ].

(** ** The server

    Requests are handled one after the other; a handler is a function of
    the state that returns a value or throws, together with the state it
    leaves.  The state is the module-level [config], the outside world, and
    a record of the commands handed to [child_process] (command and working
    directory, oldest first). *)

Section Server.
Variable P : Platform.

Record State : Type := {
  config : Config;
  world : World P;
  spawned : list (jsstring * jsstring);
}.

Definition M (A : Type) : Type := State -> outcome A * State.

Definition ret {A : Type} (a : A) : M A := fun st => (Return a, st).

Definition throw {A : Type} (e : error) : M A := fun st => (Throw e, st).

Definition bind {A B : Type} (m : M A) (f : A -> M B) : M B :=
  fun st =>
    match m st with
    | (Return a, st') => f a st'
    | (Throw e, st') => (Throw e, st')
    end.

(** [try { m } catch (error) { handler }] *)
Definition try_catch {A : Type} (m : M A) (handler : error -> M A) : M A :=
  fun st =>
    match m st with
    | (Return a, st') => (Return a, st')
    | (Throw e, st') => handler e st'
    end.

Definition lift {A : Type} (o : outcome A) : M A := fun st => (o, st).

Definition get_config : M Config := fun st => (Return (config st), st).

Definition get_world : M (World P) := fun st => (Return (world st), st).

Notation "'let*' x ':=' m 'in' k" :=
  (bind m (fun x => k))
    (at level 10, x pattern, m at level 100, k at level 200).

(** *** Project validation *)

(** The [try] block of [isLaravelProject]. *)
Definition isLaravelProject_try (w : World P) (projectPath : jsstring)
  : outcome bool :=
  let composerJsonPath := path_join [projectPath; lit "composer.json"] in
  let artisanPath := path_join [projectPath; lit "artisan"] in
  if negb (fs_access P w composerJsonPath) then Throw (Error [])
  else if negb (fs_access P w artisanPath) then Throw (Error [])
  else
    match fs_readFile P w composerJsonPath with
    | inl message => Throw (Error message)
    | inr composerContent =>
        match JSON_parse P composerContent with
        | None => Throw (Error [])
        | Some composer =>
            obind (get_member composer (lit "require"))
              (fun req =>
                 if is_defined (get_member_opt req (lit "laravel/framework"))
                 then Return true
                 else
                   obind (get_member composer (lit "require-dev"))
                     (fun dev =>
                        Return (is_defined
                                  (get_member_opt dev
                                     (lit "laravel/framework")))))
        end
    end.

Definition isLaravelProject (w : World P) (projectPath : jsstring) : bool :=
  match isLaravelProject_try w projectPath with
  | Return b => b
  | Throw _ => false
  end.

Definition searchPaths : list jsstring :=
  [ process_cwd P;
    path_join [homeDir P; lit "Sites"];
    path_join [homeDir P; lit "projects"];
    path_join [homeDir P; lit "workspace"];
    path_join [homeDir P; lit "dev"];
    path_join [homeDir P; lit "code"];
    lit "/var/www";
    lit "/var/www/html" ].

(** One turn of the outer loop of [findLaravelProjects]: the projects
    found right under [searchPath]. *)
Definition scanSearchPath (w : World P) (searchPath : jsstring)
  : list jsstring :=
  match fs_readdir P w searchPath with
  | inl _ => []
  | inr dirs =>
      filter
        (fun fullPath =>
           match fs_stat_isDirectory P w fullPath with
           | inr true => isLaravelProject w fullPath
           | _ => false
           end)
        (map (fun dir => path_join [searchPath; dir]) dirs)
  end.

Definition findLaravelProjects (w : World P) : list jsstring :=
  dedup [] (flat_map (scanSearchPath w) searchPaths).

(** *** Running commands *)

Definition runCommand (command : jsstring) (projectPath : option jsstring)
  : M (jsstring * jsstring) :=
  fun st =>
    let cwd := or_default projectPath (laravelPath (config st)) in
    if negb (isLaravelProject (world st) cwd) then
      (Throw (Error (lit "Not a valid Laravel project: " ++ cwd)), st)
    else
      let '(result, w') := execAsync P command cwd (world st) in
      let st' := {| config := config st; world := w';
                    spawned := spawned st ++ [(command, cwd)] |} in
      match result with
      | inr (stdout, stderr) => (Return (stdout, stderr), st')
      | inl message =>
          (Throw (Error (lit "Command failed: " ++ message)), st')
      end.

(** *** Resources *)

Record ResourceDescriptor : Type := {
  r_uri : jsstring;
  r_name : jsstring;
  r_mimeType : jsstring;
}.

Definition listResources (st : State) : list ResourceDescriptor :=
  let screenshotsDir :=
    path_join [laravelPath (config st); screenshotsPath (config st)] in
  let screenshots :=
    match fs_readdir P (world st) screenshotsDir with
    | inr files => files
    | inl _ => []
    end in
  let logsDir :=
    path_join [laravelPath (config st); logsPath (config st)] in
  let logs :=
    match fs_readdir P (world st) logsDir with
    | inr files => files
    | inl _ => []
    end in
  map (fun file =>
         {| r_uri := lit "screenshot://" ++ file;
            r_name := lit "Screenshot: " ++ file;
            r_mimeType := lit "image/png" |})
      (filter (fun file => endsWith file (lit ".png")) screenshots)
  ++
  map (fun file =>
         {| r_uri := lit "log://" ++ file;
            r_name := lit "Log: " ++ file;
            r_mimeType := lit "text/plain" |})
      (filter (fun file => endsWith file (lit ".log")) logs).

(** The one entry of [contents] in a read response: [blob] for an image,
    [text] for a log. *)
Record ResourceContents : Type := {
  c_uri : jsstring;
  c_mimeType : jsstring;
  c_blob : option jsstring;
  c_text : option jsstring;
}.

Definition readResource (uri : jsstring) : M ResourceContents :=
  fun st =>
    if startsWith uri (lit "screenshot://") then
      let filename := remove_first (lit "screenshot://") uri in
      let filepath :=
        path_join [laravelPath (config st); screenshotsPath (config st);
                   filename] in
      match fs_readFile_base64 P (world st) filepath with
      | inr content =>
          (Return {| c_uri := uri; c_mimeType := lit "image/png";
                     c_blob := Some content; c_text := None |}, st)
      | inl message => (Throw (Error message), st)
      end
    else if startsWith uri (lit "log://") then
      let filename := remove_first (lit "log://") uri in
      let filepath :=
        path_join [laravelPath (config st); logsPath (config st);
                   filename] in
      match fs_readFile P (world st) filepath with
      | inr content =>
          (Return {| c_uri := uri; c_mimeType := lit "text/plain";
                     c_blob := None; c_text := Some content |}, st)
      | inl message => (Throw (Error message), st)
      end
    else (Throw (Error (lit "Unknown resource type")), st).

(** *** Tools *)

Definition check_mark : jsstring := [9989%N].
Definition warning_sign : jsstring := [9888%N; 65039%N].
Definition cross_mark : jsstring := [10060%N].

Definition duskInstalled (w : World P) (project : jsstring) : bool :=
  fs_access P w (path_join [project; lit "vendor/laravel/dusk"]).

Definition set_laravel_project (args : option Arguments)
  : M (list content_item) :=
  fun st =>
    let projectPath := arg arg_path args in
    if negb (truthy_string projectPath) then
      (Throw (Error (lit "Project path is required")), st)
    else
      let absolutePath :=
        path_resolve (process_cwd P) (interpolate projectPath) in
      if negb (isLaravelProject (world st) absolutePath) then
        (Return
           (text_content
              (lit "Error: " ++ absolutePath ++
               lit " is not a valid Laravel project. Please ensure the path contains a Laravel installation with composer.json and artisan files.")),
         st)
      else
        let installed := duskInstalled (world st) absolutePath in
        let st' := {| config := set_laravelPath (config st) absolutePath;
                      world := world st; spawned := spawned st |} in
        (Return
           (text_content
              (lit "Laravel project set to: " ++ absolutePath ++ [nl] ++
               (if installed
                then check_mark ++ lit " Laravel Dusk is installed"
                else warning_sign ++
                     lit "  Laravel Dusk is not installed. Run: composer require laravel/dusk --dev"))),
         st').

Definition list_laravel_projects : M (list content_item) :=
  fun st =>
    let projects := findLaravelProjects (world st) in
    match projects with
    | [] =>
        (Return
           (text_content
              (lit "No Laravel projects found in common locations. Use set_laravel_project to specify a custom path.")),
         st)
    | _ =>
        let projectInfo :=
          map (fun project =>
                 project ++ lit " " ++
                 (if duskInstalled (world st) project
                  then lit "(Dusk " ++ check_mark ++ lit ")"
                  else lit "(Dusk " ++ cross_mark ++ lit ")"))
              projects in
        (Return
           (text_content
              (lit "Found Laravel projects:" ++ [nl] ++
               join [nl] (map (fun p => lit "- " ++ p) projectInfo) ++
               [nl; nl] ++ lit "Current project: " ++
               laravelPath (config st))),
         st)
    end.

(** The command line [run_dusk_test] builds from its arguments. *)
Definition duskCommand (args : option Arguments) : jsstring :=
  let command := lit "php artisan dusk" in
  let command :=
    if truthy_string (arg arg_test args)
    then command ++ lit " " ++ interpolate (arg arg_test args)
    else command in
  let command :=
    if truthy_string (arg arg_filter args)
    then command ++ lit " --filter=" ++ [dquote] ++
         interpolate (arg arg_filter args) ++ [dquote]
    else command in
  let command :=
    if truthy_string (arg arg_group args)
    then command ++ lit " --group=" ++ interpolate (arg arg_group args)
    else command in
  if negb (truthy_bool (arg arg_headless args))
  then command ++ lit " --headed"
  else command.

Definition formatResults (results : summary) (stderr : jsstring) : jsstring :=
  lit "Dusk Test Results:" ++ [nl] ++
  lit "- Total Tests: " ++ number_toString P (total results) ++ [nl] ++
  lit "- Passed: " ++ number_toString P (passed results) ++ [nl] ++
  lit "- Failed: " ++ number_toString P (failed results) ++ [nl] ++
  lit "- Duration: " ++ interpolate (duration results) ++ [nl] ++
  [nl] ++
  (if num_positive (failed results)
   then [nl] ++ lit "Failures:" ++ [nl] ++
        join [nl; nl]
          (map (fun f => lit "- " ++ test f ++ [nl] ++ lit "  " ++ message f)
               (failures results))
   else lit "All tests passed! " ++ check_mark) ++ [nl] ++
  [nl] ++
  (if truthy stderr
   then [nl] ++ lit "Warnings/Errors:" ++ [nl] ++ stderr
   else []).

Definition run_dusk_test (args : option Arguments) : M (list content_item) :=
  try_catch
    (let* (stdout, stderr) := runCommand (duskCommand args) None in
     let* results := lift (parseTestResults stdout) in
     ret (text_content (formatResults results stderr)))
    (fun error =>
       ret (text_content
              (lit "Error running Dusk tests: " ++ error_message error))).

Definition list_dusk_tests : M (list content_item) :=
  fun st =>
    let testsDir := path_join [laravelPath (config st); lit "tests/Browser"] in
    let pattern := path_join [testsDir; lit "**/*.php"] in
    match glob_sync P (world st) pattern with
    | inr files =>
        let tests := map (fun file => path_relative P testsDir file) files in
        (Return
           (text_content
              (lit "Available Dusk Tests:" ++ [nl] ++
               join [nl] (map (fun t => lit "- " ++ t) tests))),
         st)
    | inl message =>
        (Return (text_content (lit "Error listing tests: " ++ message)), st)
    end.

Definition check_dusk_environment : M (list content_item) :=
  let* cfg := get_config in
  let* w := get_world in
  let check1 :=
    if fs_access P w (path_join [laravelPath cfg; lit "vendor/laravel/dusk"])
    then check_mark ++ lit " Laravel Dusk is installed"
    else cross_mark ++
         lit " Laravel Dusk is not installed (run: composer require laravel/dusk --dev)" in
  let check2 :=
    if fs_access P w (path_join [laravelPath cfg; lit ".env.dusk.local"])
    then check_mark ++ lit " .env.dusk.local file exists"
    else warning_sign ++
         lit "  .env.dusk.local file not found (optional but recommended)" in
  let* check3 :=
    try_catch
      (let* out := runCommand (lit "php artisan dusk:chrome-driver --detect")
                     None in
       ret (check_mark ++ lit " ChromeDriver is properly configured"))
      (fun _ =>
         ret (cross_mark ++
              lit " ChromeDriver not found or outdated (run: php artisan dusk:install)")) in
  let* w' := get_world in
  let check4 :=
    if fs_access P w' (path_join [laravelPath cfg; lit "tests/Browser"])
    then check_mark ++ lit " Browser tests directory exists"
    else cross_mark ++ lit " Browser tests directory not found" in
  ret (text_content
         (lit "Dusk Environment Check:" ++ [nl] ++
          join [nl] [check1; check2; check3; check4])).

(** The loop of [clear_dusk_screenshots]: the number of files deleted. *)
Fixpoint unlinkScreenshots (screenshotsDir : jsstring) (files : list jsstring)
         (deleted : Z) : M Z :=
  match files with
  | [] => ret deleted
  | file :: rest =>
      if endsWith file (lit ".png") then
        fun st =>
          match fs_unlink P (world st) (path_join [screenshotsDir; file]) with
          | inr w' =>
              unlinkScreenshots screenshotsDir rest (deleted + 1)
                {| config := config st; world := w';
                   spawned := spawned st |}
          | inl message => (Throw (Error message), st)
          end
      else unlinkScreenshots screenshotsDir rest deleted
  end.

Definition clear_dusk_screenshots : M (list content_item) :=
  try_catch
    (let* cfg := get_config in
     let* w := get_world in
     let screenshotsDir := path_join [laravelPath cfg; screenshotsPath cfg] in
     let* files :=
       lift (match fs_readdir P w screenshotsDir with
             | inr files => Return files
             | inl message => Throw (Error message)
             end) in
     let* deleted := unlinkScreenshots screenshotsDir files 0 in
     ret (text_content
            (lit "Cleared " ++ number_toString P (Finite deleted) ++
             lit " screenshot(s) from the Dusk screenshots directory.")))
    (fun error =>
       ret (text_content
              (lit "Error clearing screenshots: " ++ error_message error))).

Definition install_chrome_driver (args : option Arguments)
  : M (list content_item) :=
  try_catch
    (let command := lit "php artisan dusk:chrome-driver" in
     let command :=
       if truthy_string (arg arg_version args)
       then command ++ lit " " ++ interpolate (arg arg_version args)
       else command ++ lit " --detect" in
     let* (stdout, stderr) := runCommand command None in
     ret (text_content
            (lit "ChromeDriver Installation:" ++ [nl] ++ stdout ++ [nl] ++
             (if truthy stderr
              then [nl] ++ lit "Warnings: " ++ stderr
              else []))))
    (fun error =>
       ret (text_content
              (lit "Error installing ChromeDriver: " ++ error_message error))).

Definition start_dev_server (args : option Arguments)
  : M (list content_item) :=
  fun st =>
    let port :=
      if truthy_number (arg arg_port args)
      then match arg arg_port args with Some n => n | None => Finite 8000 end
      else Finite 8000 in
    let command := lit "php artisan serve --port=" ++ number_toString P port in
    let cwd := laravelPath (config st) in
    let '(thrown, w') := exec P command cwd (world st) in
    let st' := {| config := config st; world := w';
                  spawned := spawned st ++ [(command, cwd)] |} in
    match thrown with
    | None =>
        (Return
           (text_content
              (lit "Laravel development server starting on port " ++
               number_toString P port ++ lit "..." ++ [nl] ++
               lit "Note: The server is running in the background. Make sure to stop it when done.")),
         st')
    | Some message =>
        (Return (text_content (lit "Error starting server: " ++ message)),
         st')
    end.

(** The handler of tool calls: the [switch] on the tool name. *)
Definition callTool (name : jsstring) (args : option Arguments)
  : M (list content_item) :=
  if str_eqb name (lit "set_laravel_project") then set_laravel_project args
  else if str_eqb name (lit "list_laravel_projects") then list_laravel_projects
  else if str_eqb name (lit "run_dusk_test") then run_dusk_test args
  else if str_eqb name (lit "list_dusk_tests") then list_dusk_tests
  else if str_eqb name (lit "check_dusk_environment")
  then check_dusk_environment
  else if str_eqb name (lit "clear_dusk_screenshots")
  then clear_dusk_screenshots
  else if str_eqb name (lit "install_chrome_driver")
  then install_chrome_driver args
  else if str_eqb name (lit "start_dev_server") then start_dev_server args
  else throw (Error (lit "Unknown tool: " ++ name)).

(** [initialize]: the start-up choice of the active project. *)
Definition initialize (st : State) : State :=
  if negb (isLaravelProject (world st) (laravelPath (config st))) then
    match findLaravelProjects (world st) with
    | first :: _ =>
        {| config := set_laravelPath (config st) first;
           world := world st; spawned := spawned st |}
    | [] => st
    end
  else st.
End Server.

Arguments Build_State {P}.

(** * The vocabulary of the specification *)

(** ** The language of a pattern

    [lang r w]: the pattern [r] can match exactly the word [w].  The
    backtracking order decides which match is found, not whether there is
    one. *)

Fixpoint lang (r : regex) (w : jsstring) : Prop :=
  match r with
  | Str l => w = l
  | PlusGreedy p | PlusLazy p => w <> [] /\ forallb p w = true
  | Seq r1 r2 => exists w1 w2, w = w1 ++ w2 /\ lang r1 w1 /\ lang r2 w2
  | Group _ r1 => lang r1 w
  | Opt r1 => w = [] \/ lang r1 w
  end.

(** The capture groups every match of the pattern sets. *)
Fixpoint groups (r : regex) : list nat :=
  match r with
  | Str _ | PlusGreedy _ | PlusLazy _ | Opt _ => []
  | Seq r1 r2 => groups r1 ++ groups r2
  | Group i r1 => i :: groups r1
  end.

(** Whether a continuation fails does not depend on the captures. *)
Definition cap_indep (R : Type) (k : jsstring -> captures -> option R)
  : Prop :=
  forall s c1 c2, k s c1 = None -> k s c2 = None.

(** ** What the three patterns recognise *)

Definition spaces (w : jsstring) : Prop := w <> [] /\ forallb is_space w = true.
Definition digits (w : jsstring) : Prop := w <> [] /\ forallb is_digit w = true.

(** The output contains [Tests: N, Assertions: M]: the two keywords, each
    followed by white space and a run of digits, a comma and white space
    between them. *)
Definition has_summary_line (output : jsstring) : Prop :=
  exists pre ws1 n ws2 ws3 m post,
    output = pre ++ lit "Tests:" ++ ws1 ++ n ++ lit "," ++ ws2 ++
             lit "Assertions:" ++ ws3 ++ m ++ post /\
    spaces ws1 /\ digits n /\ spaces ws2 /\ spaces ws3 /\ digits m.

(** The output contains [Time:], white space and at least one character
    that is not a line terminator. *)
Definition has_time_line (output : jsstring) : Prop :=
  exists pre ws d post,
    output = pre ++ lit "Time:" ++ ws ++ d ++ post /\
    spaces ws /\ d <> [] /\ forallb is_dot d = true.

(** The output contains a [FAILURES!] line followed by a non-empty body
    and an empty line. *)
Definition has_failure_block (output : jsstring) : Prop :=
  exists pre body post,
    output = pre ++ (lit "FAILURES!" ++ [nl]) ++ body ++ [nl; nl] ++ post /\
    body <> [].

(** ** Numerals *)

(** The value of a decimal digit. *)
Definition digit_val (c : char) : Z := (Z.of_N c - 48)%Z.

(** The number a run of decimal digits denotes. *)
Definition decimal_value (ds : jsstring) : Z :=
  digits_value 10 (map digit_val ds).

(** The decimal numeral of a natural number, most significant digit
    first and without leading zeros. *)
Fixpoint decimal_aux (fuel : nat) (n : N) (acc : jsstring) : jsstring :=
  let acc' := (48 + n mod 10)%N :: acc in
  match fuel with
  | O => acc'
  | S fuel' =>
      if (n / 10 =? 0)%N then acc' else decimal_aux fuel' (n / 10) acc'
  end.

Definition decimal (n : N) : jsstring :=
  decimal_aux (N.to_nat (N.size n)) n [].

(** The line [Tests: <t>, Assertions: 5, Failures: <f>]. *)
Definition summary_line (t f : jsstring) : jsstring :=
  lit "Tests: " ++ t ++ lit ", Assertions: 5, Failures: " ++ f.

(** ** Projects, tools and resources *)

(** The manifest declares the framework key in the given section. *)
Definition declares (composer : json) (section : jsstring) : Prop :=
  exists members deps v,
    composer = JObject members /\
    lookup section members = Some (JObject deps) /\
    lookup (lit "laravel/framework") deps = Some v.

(** The directory holds a readable manifest that parses and declares the
    framework, and the entry-point marker. *)
Definition qualifies (P : Platform) (w : World P) (projectPath : jsstring)
  : Prop :=
  fs_access P w (path_join [projectPath; lit "composer.json"]) = true /\
  fs_access P w (path_join [projectPath; lit "artisan"]) = true /\
  exists content composer,
    fs_readFile P w (path_join [projectPath; lit "composer.json"]) =
    inr content /\
    JSON_parse P content = Some composer /\
    (declares composer (lit "require") \/
     declares composer (lit "require-dev")).

(** A handler that leaves the configuration as it found it. *)
Definition keeps_config (P : Platform) (A : Type) (m : M P A) : Prop :=
  forall st r st', m st = (r, st') -> config st' = config st.

(** The names in the catalog. *)
Definition toolNames : list jsstring := map (fun t => name t) tools.

(** The text of the validation error of [set_laravel_project]. *)
Definition invalidProjectText (absolutePath : jsstring) : jsstring :=
  lit "Error: " ++ absolutePath ++
  lit " is not a valid Laravel project. Please ensure the path contains a Laravel installation with composer.json and artisan files.".

(** The root mark of a path and its normalized segments. *)
Definition root_of (l : jsstring) : jsstring :=
  if is_absolute l then [slash] else [].

Definition segments_of (l : jsstring) : list jsstring :=
  normalize_segments (negb (is_absolute l)) (split_char slash l) [].

(** What [readResource] answers for an image once the file is read. *)
Definition screenshotAnswer (uri : jsstring) (read : jsstring + jsstring)
  : outcome (ResourceContents) :=
  match read with
  | inr content =>
      Return {| c_uri := uri; c_mimeType := lit "image/png";
                c_blob := Some content; c_text := None |}
  | inl message => Throw (Error message)
  end.

(** The same for a log. *)
Definition logAnswer (uri : jsstring) (read : jsstring + jsstring)
  : outcome (ResourceContents) :=
  match read with
  | inr content =>
      Return {| c_uri := uri; c_mimeType := lit "text/plain";
                c_blob := None; c_text := Some content |}
  | inl message => Throw (Error message)
  end.

(** ** A small platform to run the model on

    Files are a list of paths with their contents; there are no
    directories to list, and commands succeed without output. *)

Definition quoted (s : jsstring) : jsstring := [dquote] ++ s ++ [dquote].

(** A manifest that requires the framework. *)
Definition demo_manifest : jsstring :=
  lit "{" ++ quoted (lit "require") ++ lit ":{" ++
  quoted (lit "laravel/framework") ++ lit ":" ++ quoted (lit "^10.0") ++
  lit "}}".

Definition demo_lookup (w : list (jsstring * jsstring)) (p : jsstring)
  : jsstring + jsstring :=
  match find (fun f => str_eqb (fst f) p) w with
  | Some f => inr (snd f)
  | None => inl (lit "ENOENT: no such file or directory")
  end.

Definition demo_platform : Platform :=
  {| World := list (jsstring * jsstring);
     process_cwd := lit "/srv";
     homeDir := lit "/home/dev";
     fs_access := fun w p => existsb (fun f => str_eqb (fst f) p) w;
     fs_readFile := demo_lookup;
     fs_readFile_base64 := demo_lookup;
     fs_readdir := fun _ _ => inl (lit "ENOENT: no such file or directory");
     fs_stat_isDirectory :=
       fun _ _ => inl (lit "ENOENT: no such file or directory");
     fs_unlink := fun _ _ => inl (lit "ENOENT: no such file or directory");
     glob_sync := fun _ _ => inr [];
     path_relative := fun _ to => to;
     JSON_parse :=
       fun text =>
         if str_eqb text demo_manifest
         then Some (JObject
                      [(lit "require",
                        JObject [(lit "laravel/framework",
                                  JString (lit "^10.0"))])])
         else None;
     execAsync := fun _ _ w => (inr ([], []), w);
     exec := fun _ _ w => (None, w);
     number_toString :=
       fun n => match n with
                | Finite z => if (z <? 0)%Z
                              then lit "-" ++ decimal (Z.to_N (- z))
                              else decimal (Z.to_N z)
                | PosInf => lit "Infinity"
                | NegInf => lit "-Infinity"
                | NaN => lit "NaN"
                end |}.

(** A world with a project at [/srv/app] and nothing else. *)
Definition demo_world : World demo_platform :=
  [(lit "/srv/app/composer.json", demo_manifest);
   (lit "/srv/app/artisan", lit "#!/usr/bin/env php")].

Definition demo_state : State demo_platform :=
  {| config := initial_config (lit "/srv/app");
     world := demo_world;
     spawned := [] |}.

(** The same world when the server was started somewhere else. *)
Definition stray_state : State demo_platform :=
  {| config := initial_config (lit "/srv");
     world := demo_world;
     spawned := [] |}.

(** An output without any of the three patterns. *)
Definition plain_output : jsstring := lit "OK (3 tests, 5 assertions)".

(** A failure block without any summary line. *)
Definition failures_only : jsstring :=
  lit "FAILURES!" ++ [nl] ++ lit "1) LoginTest::testLogin" ++ [nl] ++
  lit "Expected true" ++ [nl; nl].

(** Arguments that name a directory which is not a project. *)
Definition stray_arguments : Arguments :=
  {| arg_path := Some (lit "/srv/elsewhere"); arg_test := None;
     arg_filter := None; arg_group := None; arg_headless := None;
     arg_version := None; arg_port := None |}.

(** ** Discovery *)

(** [p] is a directory right under one of the search roots, and a valid
    project. *)
Definition discovered (P : Platform) (w : World P) (p : jsstring) : Prop :=
  exists root dirs dir,
    In root (searchPaths P) /\
    fs_readdir P w root = inr dirs /\ In dir dirs /\
    p = path_join [root; dir] /\
    fs_stat_isDirectory P w p = inr true /\
    isLaravelProject P w p = true.

(** ** A platform with directories

    The files are again a list of paths with contents; a directory exists
    when a file lies below it, listing it gives the names right below it,
    and unlinking removes a file. *)

Definition disk_below (dir : jsstring) (f : jsstring * jsstring) : bool :=
  startsWith (fst f) (dir ++ [slash]).

Definition disk_children (w : list (jsstring * jsstring)) (dir : jsstring)
  : list jsstring :=
  dedup []
    (flat_map
       (fun f =>
          match strip_prefix (dir ++ [slash]) (fst f) with
          | Some rest =>
              match split_char slash rest with
              | entry :: _ => [entry]
              | [] => []
              end
          | None => []
          end) w).

Definition disk_platform : Platform :=
  {| World := list (jsstring * jsstring);
     process_cwd := lit "/srv";
     homeDir := lit "/home/dev";
     fs_access :=
       fun w p =>
         existsb (fun f => str_eqb (fst f) p || disk_below p f) w;
     fs_readFile := demo_lookup;
     fs_readFile_base64 := demo_lookup;
     fs_readdir :=
       fun w p =>
         if existsb (disk_below p) w then inr (disk_children w p)
         else inl (lit "ENOENT: no such file or directory");
     fs_stat_isDirectory :=
       fun w p =>
         if existsb (disk_below p) w then inr true
         else if existsb (fun f => str_eqb (fst f) p) w then inr false
         else inl (lit "ENOENT: no such file or directory");
     fs_unlink :=
       fun w p =>
         if existsb (fun f => str_eqb (fst f) p) w
         then inr (filter (fun f => negb (str_eqb (fst f) p)) w)
         else inl (lit "ENOENT: no such file or directory");
     glob_sync := fun _ _ => inr [];
     path_relative := fun _ to => to;
     JSON_parse := JSON_parse demo_platform;
     execAsync := fun _ _ w => (inr ([], []), w);
     exec := fun _ _ w => (None, w);
     number_toString := number_toString demo_platform |}.

(** A project at [/srv/app] with two files among its screenshots and one
    log. *)
Definition disk_world : World disk_platform :=
  [(lit "/srv/app/composer.json", demo_manifest);
   (lit "/srv/app/artisan", lit "#!/usr/bin/env php");
   (lit "/srv/app/tests/Browser/screenshots/login.png", lit "PNG");
   (lit "/srv/app/tests/Browser/screenshots/notes.txt", lit "notes");
   (lit "/srv/app/storage/logs/dusk/run.log", lit "started")].

Definition disk_state : State disk_platform :=
  {| config := initial_config (lit "/srv/app");
     world := disk_world;
     spawned := [] |}.

(** The server started in [/srv], above the project. *)
Definition disk_stray_state : State disk_platform :=
  {| config := initial_config (lit "/srv");
     world := disk_world;
     spawned := [] |}.

(** ** What the handlers do to the world *)

(** Unlinking the paths one after the other until one fails: the world
    reached and the message of the failure, if any. *)
Fixpoint unlink_each (P : Platform) (w : World P) (paths : list jsstring)
  : World P * option jsstring :=
  match paths with
  | [] => (w, None)
  | p :: rest =>
      match fs_unlink P w p with
      | inr w' => unlink_each P w' rest
      | inl message => (w, Some message)
      end
  end.

(** The state [st] with another world. *)
Definition with_world (P : Platform) (st : State P) (w : World P) : State P :=
  {| config := config st; world := w; spawned := spawned st |}.

(** The state [st] after [command] was spawned in [cwd], leaving the
    world [w]. *)
Definition after_spawn (P : Platform) (st : State P)
           (command cwd : jsstring) (w : World P) : State P :=
  {| config := config st; world := w;
     spawned := spawned st ++ [(command, cwd)] |}.

(** What a call of [tool] may add to the spawned commands: at most one
    [php artisan] command, run in the active project, which has passed
    validation unless the tool is [start_dev_server]. *)
Definition spawn_discipline (P : Platform) (tool : jsstring)
           (st st' : State P) : Prop :=
  exists l,
    spawned st' = spawned st ++ l /\ length l <= 1 /\
    forall c d,
      In (c, d) l ->
      d = laravelPath (config st) /\
      startsWith c (lit "php artisan ") = true /\
      (tool <> lit "start_dev_server" ->
       isLaravelProject P (world st) d = true).

(** The report of [run_dusk_test] for a run without failures. *)
Definition allPassedText (P : Platform) (results : summary)
           (stderr : jsstring) : jsstring :=
  lit "Dusk Test Results:" ++ [nl] ++
  lit "- Total Tests: " ++ number_toString P (total results) ++ [nl] ++
  lit "- Passed: " ++ number_toString P (passed results) ++ [nl] ++
  lit "- Failed: " ++ number_toString P (failed results) ++ [nl] ++
  lit "- Duration: " ++ interpolate (duration results) ++ [nl] ++
  [nl] ++ lit "All tests passed! " ++ check_mark ++ [nl] ++ [nl] ++
  (if truthy stderr
   then [nl] ++ lit "Warnings/Errors:" ++ [nl] ++ stderr
   else []).

(** The port [start_dev_server] uses. *)
Definition serverPort (args : option Arguments) : number :=
  match arg arg_port args with
  | Some (Finite z) => if Z.eqb z 0 then Finite 8000 else Finite z
  | Some NaN | None => Finite 8000
  | Some n => n
  end.

(** What a handler does besides answering: it returns content, keeps the
    configuration, and spawns nothing or one [php artisan] command in the
    active project, validated first when [validated] is set. *)
Definition handler_effect (P : Platform) (validated : bool)
           (m : M P (list content_item)) (st : State P) : Prop :=
  (exists content, fst (m st) = Return content) /\
  config (snd (m st)) = config st /\
  (spawned (snd (m st)) = spawned st \/
   exists c,
     startsWith c (lit "php artisan ") = true /\
     spawned (snd (m st)) = spawned st ++ [(c, laravelPath (config st))] /\
     (validated = true ->
      isLaravelProject P (world st) (laravelPath (config st)) = true)).

(** A session: the tool calls handled one after the other, whether they
    return or throw. *)
Fixpoint serve (P : Platform) (calls : list (jsstring * option Arguments))
         (st : State P) : State P :=
  match calls with
  | [] => st
  | (tool, args) :: rest => serve rest (snd (callTool tool args st))
  end.

(** The four lines of [check_dusk_environment]. *)
Definition duskLine (installed : bool) : jsstring :=
  if installed
  then check_mark ++ lit " Laravel Dusk is installed"
  else cross_mark ++
       lit " Laravel Dusk is not installed (run: composer require laravel/dusk --dev)".

Definition envLine (present : bool) : jsstring :=
  if present
  then check_mark ++ lit " .env.dusk.local file exists"
  else warning_sign ++
       lit "  .env.dusk.local file not found (optional but recommended)".

Definition driverLine (configured : bool) : jsstring :=
  if configured
  then check_mark ++ lit " ChromeDriver is properly configured"
  else cross_mark ++
       lit " ChromeDriver not found or outdated (run: php artisan dusk:install)".

Definition testsLine (present : bool) : jsstring :=
  if present
  then check_mark ++ lit " Browser tests directory exists"
  else cross_mark ++ lit " Browser tests directory not found".

Definition environmentText (c1 c2 c3 c4 : jsstring) : jsstring :=
  lit "Dusk Environment Check:" ++ [nl] ++ join [nl] [c1; c2; c3; c4].

(** The [.png] entries of a listing, as paths under [dir]. *)
Definition pngPaths (dir : jsstring) (files : list jsstring) : list jsstring :=
  map (fun file => path_join [dir; file])
      (filter (fun file => endsWith file (lit ".png")) files).

Definition clearedText (P : Platform) (deleted : Z) : jsstring :=
  lit "Cleared " ++ number_toString P (Finite deleted) ++
  lit " screenshot(s) from the Dusk screenshots directory.".

(** ** Listing resources *)

(** [fs.readdir(dir).catch(() => [])] *)
Definition listing (P : Platform) (w : World P) (dir : jsstring)
  : list jsstring :=
  match fs_readdir P w dir with
  | inr files => files
  | inl _ => []
  end.

(** The descriptor of a screenshot file, and of a log file. *)
Definition screenshotResource (file : jsstring) : ResourceDescriptor :=
  {| r_uri := lit "screenshot://" ++ file;
     r_name := lit "Screenshot: " ++ file;
     r_mimeType := lit "image/png" |}.

Definition logResource (file : jsstring) : ResourceDescriptor :=
  {| r_uri := lit "log://" ++ file;
     r_name := lit "Log: " ++ file;
     r_mimeType := lit "text/plain" |}.

(** The two artifact directories of a state. *)
Definition screenshotsDir (P : Platform) (st : State P) : jsstring :=
  path_join [laravelPath (config st); screenshotsPath (config st)].

Definition logsDir (P : Platform) (st : State P) : jsstring :=
  path_join [laravelPath (config st); logsPath (config st)].

(** ** More about the parser *)

(** The text stops here or goes on with a new line. *)
Definition line_end (rest : jsstring) : Prop :=
  rest = [] \/ exists r, rest = nl :: r.

(** Every capture group of [r] captures words that satisfy [Q] for its
    number. *)
Fixpoint respects (Q : nat -> jsstring -> Prop) (r : regex) : Prop :=
  match r with
  | Str _ | PlusGreedy _ | PlusLazy _ => True
  | Seq r1 r2 => respects Q r1 /\ respects Q r2
  | Group i r1 => respects Q r1 /\ forall w, lang r1 w -> Q i w
  | Opt r1 => respects Q r1
  end.

(** The captures that are set satisfy [Q]. *)
Definition captures_ok (Q : nat -> jsstring -> Prop) (c : captures) : Prop :=
  forall i v, c i = Some v -> Q i v.

(** A number that is neither NaN nor negative. *)
Definition nonneg_number (n : number) : Prop :=
  match n with
  | Finite z => (0 <= z)%Z
  | PosInf => True
  | NegInf | NaN => False
  end.

(** A failure record as the parser builds them: a test name that is not
    empty, on one line, and both texts without white space at either
    end. *)
Definition well_formed_failure (f : failure) : Prop :=
  test f <> [] /\ ~ In nl (test f) /\
  trim (test f) = test f /\ trim (message f) = message f.

(** * Properties of the runtime model *)

(** ** Prefixes *)

Lemma char_eqb_eq (a b : char) : char_eqb a b = true <-> a = b.
Proof. apply N.eqb_eq. Qed.

Lemma strip_prefix_app (l s : jsstring) : strip_prefix l (l ++ s) = Some s.
Proof.
  induction l as [|x l IH]; simpl; [reflexivity|].
  unfold char_eqb. now rewrite N.eqb_refl.
Qed.

Lemma strip_prefix_some (l s s' : jsstring) :
  strip_prefix l s = Some s' -> s = l ++ s'.
Proof.
  revert s. induction l as [|x l IH]; intros s H; simpl in *.
  - now inversion H.
  - destruct s as [|y s]; [discriminate|].
    destruct (char_eqb x y) eqn:E; [|discriminate].
    apply char_eqb_eq in E. subst y. f_equal. now apply IH.
Qed.

Lemma consumed_app (w s : jsstring) : consumed (w ++ s) s = w.
Proof.
  unfold consumed. rewrite length_app.
  replace (length w + length s - length s) with (length w) by lia.
  rewrite firstn_app, Nat.sub_diag, firstn_all. simpl. apply app_nil_r.
Qed.

Section MatcherFacts.
Variable R : Type.
Implicit Types (k : jsstring -> option R) (p : char -> bool).

Lemma plus_greedy_sound p s k x :
  plus_greedy p s k = Some x ->
  exists w s', s = w ++ s' /\ w <> [] /\ forallb p w = true /\ k s' = Some x.
Proof.
  revert x. induction s as [|c s IH]; intros x H; simpl in H; [discriminate|].
  destruct (p c) eqn:Pc; [|discriminate].
  destruct (plus_greedy p s k) as [y|] eqn:E.
  - inversion H; subst y. destruct (IH x eq_refl) as (w & s' & -> & _ & Hw & Hk).
    exists (c :: w), s'. simpl. rewrite Pc, Hw. repeat split; auto; discriminate.
  - exists [c], s. simpl. rewrite Pc. repeat split; auto; discriminate.
Qed.

Lemma plus_lazy_sound p s k x :
  plus_lazy p s k = Some x ->
  exists w s', s = w ++ s' /\ w <> [] /\ forallb p w = true /\ k s' = Some x.
Proof.
  revert x. induction s as [|c s IH]; intros x H; simpl in H; [discriminate|].
  destruct (p c) eqn:Pc; [|discriminate].
  destruct (k s) as [y|] eqn:E.
  - inversion H; subst y. exists [c], s. simpl. rewrite Pc.
    repeat split; auto; discriminate.
  - destruct (IH x H) as (w & s' & -> & _ & Hw & Hk).
    exists (c :: w), s'. simpl. rewrite Pc, Hw. repeat split; auto; discriminate.
Qed.

Lemma plus_greedy_none p s k :
  plus_greedy p s k = None <->
  (forall w s', s = w ++ s' -> w <> [] -> forallb p w = true -> k s' = None).
Proof.
  split.
  - induction s as [|c s IH]; intros H w s' E Hw Hp.
    + destruct w; [congruence|discriminate].
    + simpl in H. destruct w as [|d w]; [congruence|].
      simpl in E. inversion E; subst d s. simpl in Hp.
      apply andb_prop in Hp as [Pc Hp]. rewrite Pc in H.
      destruct (plus_greedy p (w ++ s') k) eqn:G; [discriminate|].
      destruct w as [|d w]; [exact H|].
      apply (IH eq_refl (d :: w) s'); auto; discriminate.
  - induction s as [|c s IH]; intros H; simpl; [reflexivity|].
    destruct (p c) eqn:Pc; [|reflexivity].
    rewrite IH.
    + apply (H [c] s); simpl; auto; [discriminate|now rewrite Pc].
    + intros w s' -> Hw Hp. apply (H (c :: w) s'); simpl; auto;
        [discriminate|now rewrite Pc].
Qed.

Lemma plus_lazy_none p s k :
  plus_lazy p s k = None <->
  (forall w s', s = w ++ s' -> w <> [] -> forallb p w = true -> k s' = None).
Proof.
  split.
  - induction s as [|c s IH]; intros H w s' E Hw Hp.
    + destruct w; [congruence|discriminate].
    + simpl in H. destruct w as [|d w]; [congruence|].
      simpl in E. inversion E; subst d s. simpl in Hp.
      apply andb_prop in Hp as [Pc Hp]. rewrite Pc in H.
      destruct (k (w ++ s')) eqn:G; [discriminate|].
      destruct w as [|d w]; [exact G|].
      apply (IH H (d :: w) s'); auto; discriminate.
  - induction s as [|c s IH]; intros H; simpl; [reflexivity|].
    destruct (p c) eqn:Pc; [|reflexivity].
    rewrite (H [c] s); simpl; auto; [|discriminate|now rewrite Pc].
    apply IH. intros w s' -> Hw Hp. apply (H (c :: w) s'); simpl; auto;
      [discriminate|now rewrite Pc].
Qed.

(** A successful match consumed a word of the pattern's language, and
    the continuation saw every mandatory group of the pattern captured. *)
Lemma matcher_sound (r : regex) :
  forall s c (k : jsstring -> captures -> option R) x,
    matcher r s c k = Some x ->
    exists w s' c',
      s = w ++ s' /\ lang r w /\ k s' c' = Some x /\
      (forall j, In j (groups r) \/ c j <> None -> c' j <> None).
Proof.
  induction r as [l|p|p|r1 IH1 r2 IH2|i r1 IH1|r1 IH1]; intros s c k x H;
    simpl in H.
  - destruct (strip_prefix l s) as [s'|] eqn:E; [|discriminate].
    apply strip_prefix_some in E. exists l, s', c. simpl. tauto.
  - apply plus_greedy_sound in H as (w & s' & -> & Hw & Hp & Hk).
    exists w, s', c. simpl. tauto.
  - apply plus_lazy_sound in H as (w & s' & -> & Hw & Hp & Hk).
    exists w, s', c. simpl. tauto.
  - apply IH1 in H as (w1 & s1 & c1 & -> & L1 & H & D1).
    apply IH2 in H as (w2 & s2 & c2 & -> & L2 & H & D2).
    exists (w1 ++ w2), s2, c2. rewrite <- app_assoc.
    repeat split; auto.
    + simpl. exists w1, w2. auto.
    + simpl. intros j [Hj|Hj].
      * apply in_app_or in Hj as [Hj|Hj]; auto.
      * auto.
  - apply IH1 in H as (w & s' & c' & -> & L & H & D).
    exists w, s'. eexists. repeat split; [exact L|exact H|].
    simpl. intros j Hj. unfold set_capture.
    destruct (Nat.eqb j i) eqn:E; [discriminate|].
    apply Nat.eqb_neq in E. apply D. destruct Hj as [[Hj|Hj]|Hj]; auto; congruence.
  - destruct (matcher r1 s c _) as [y|] eqn:E.
    + inversion H; subst y.
      apply IH1 in E as (w & s' & c' & -> & L & E & D).
      destruct (Nat.eqb _ _); [discriminate|].
      exists w, s', c'. simpl. repeat split; auto.
      intros j [[]|Hj]. auto.
    + exists [], s, c. simpl. repeat split; auto. intros j [[]|Hj]. auto.
Qed.

(** A match fails exactly when every way of consuming a word of the
    language leaves a rest on which the continuation fails. *)
Lemma matcher_none (r : regex) :
  forall s c (k : jsstring -> captures -> option R),
    cap_indep k ->
    (matcher r s c k = None <->
     forall w s', s = w ++ s' -> lang r w -> k s' c = None).
Proof.
  induction r as [l|p|p|r1 IH1 r2 IH2|i r1 IH1|r1 IH1]; intros s c k Hk;
    simpl.
  - split.
    + intros H w s' -> ->. now rewrite strip_prefix_app in H.
    + intros H. destruct (strip_prefix l s) as [s'|] eqn:E; [|reflexivity].
      apply strip_prefix_some in E. now apply (H l s').
  - rewrite plus_greedy_none. split; intros H w s' E.
    + intros [Hw Hp]. now apply (H w s').
    + intros Hw Hp. now apply (H w s').
  - rewrite plus_lazy_none. split; intros H w s' E.
    + intros [Hw Hp]. now apply (H w s').
    + intros Hw Hp. now apply (H w s').
  - assert (Hk2 : cap_indep (fun s1 c1 => matcher r2 s1 c1 k)).
    { intros s1 c1 c2 H. rewrite IH2 in H |- * by assumption.
      intros w s' E L. apply (Hk s' c1 c2). now apply (H w s'). }
    rewrite IH1 by assumption. split.
    + intros H w s' -> (w1 & w2 & -> & L1 & L2).
      specialize (H w1 (w2 ++ s')). rewrite <- app_assoc in H.
      specialize (H eq_refl L1). rewrite IH2 in H by assumption.
      now apply (H w2 s').
    + intros H w1 s1 -> L1. rewrite IH2 by assumption.
      intros w2 s' -> L2. apply (H (w1 ++ w2) s').
      * now rewrite app_assoc.
      * exists w1, w2. auto.
  - rewrite IH1.
    + split; intros H w s' E L; specialize (H w s' E L);
        revert H; apply Hk.
    + intros s1 c1 c2. apply Hk.
  - assert (Hk1 : cap_indep
              (fun s' c' =>
                 if Nat.eqb (length s') (length s) then None else k s' c')).
    { intros s1 c1 c2 H. destruct (Nat.eqb _ _); [reflexivity|].
      revert H. apply Hk. }
    split.
    + intros H w s' E [->|L].
      * simpl in E. subst s'.
        destruct (matcher r1 s c _); [discriminate|exact H].
      * destruct (matcher r1 s c _) eqn:M; [discriminate|].
        rewrite IH1 in M by assumption. specialize (M w s' E L).
        destruct (Nat.eqb (length s') (length s)) eqn:Len; [|exact M].
        apply Nat.eqb_eq in Len. subst s. rewrite length_app in Len.
        destruct w; [exact H|simpl in Len; lia].
    + intros H.
      assert (M : matcher r1 s c
                    (fun s' c' =>
                       if Nat.eqb (length s') (length s) then None
                       else k s' c') = None).
      { rewrite IH1 by assumption. intros w s' E L.
        destruct (Nat.eqb _ _); [reflexivity|]. apply (H w s' E). now right. }
      rewrite M. apply (H [] s); simpl; auto.
Qed.
End MatcherFacts.

(** ** Searching *)

Lemma match_here_sound (r : regex) (s s' : jsstring) (c : captures) :
  match_here r s = Some (s', c) ->
  exists w, s = w ++ s' /\ lang r w /\ forall j, In j (groups r) -> c j <> None.
Proof.
  unfold match_here. intros H.
  apply matcher_sound in H as (w & s1 & c1 & -> & L & E & D).
  inversion E; subst s1 c1. exists w. auto.
Qed.

Lemma match_here_none (r : regex) (s : jsstring) :
  match_here r s = None <-> forall w s', s = w ++ s' -> ~ lang r w.
Proof.
  unfold match_here. rewrite matcher_none by (intros ? ? ? ?; discriminate).
  split; intros H w s' E.
  - intros L. specialize (H w s' E L). discriminate.
  - intros L. now destruct (H w s' E).
Qed.

Lemma match_here_consumed (r : regex) (s s' : jsstring) (c : captures) :
  match_here r s = Some (s', c) ->
  s = consumed s s' ++ s' /\ lang r (consumed s s') /\
  forall j, In j (groups r) -> c j <> None.
Proof.
  intros H. apply match_here_sound in H as (w & -> & L & D).
  rewrite consumed_app. auto.
Qed.

(** A found match is a word of the language inside the input, at the
    reported index, and its mandatory groups are captured. *)
Lemma search_from_some (r : regex) (s : jsstring) :
  forall idx m,
    search_from r idx s = Some m ->
    exists pre post,
      s = pre ++ m_whole m ++ post /\ idx + length pre = m_index m /\
      lang r (m_whole m) /\ forall j, In j (groups r) -> m_caps m j <> None.
Proof.
  induction s as [|a s IH]; intros idx m H; simpl in H.
  - destruct (match_here r []) as [[s' c]|] eqn:E; [|discriminate].
    inversion H; subst m; simpl.
    apply match_here_consumed in E as (E & L & D).
    exists [], s'. simpl. auto.
  - destruct (match_here r (a :: s)) as [[s' c]|] eqn:E.
    + inversion H; subst m; simpl.
      apply match_here_consumed in E as (E & L & D).
      exists [], s'. simpl. auto.
    + apply IH in H as (pre & post & -> & Hi & L & D).
      exists (a :: pre), post. simpl. repeat split; auto. lia.
Qed.

(** The search fails exactly when no part of the input is a word of the
    language. *)
Lemma search_from_none (r : regex) (s : jsstring) :
  forall idx,
    search_from r idx s = None <->
    forall pre w post, s = pre ++ w ++ post -> ~ lang r w.
Proof.
  induction s as [|a s IH]; intros idx; simpl.
  - destruct (match_here r []) as [[s' c]|] eqn:E.
    + split; [discriminate|]. intros H. exfalso.
      apply match_here_sound in E as (w & E & L & _).
      apply (H [] w s'); auto.
    + split; [|reflexivity]. intros _ pre w post E' L.
      rewrite match_here_none in E.
      destruct pre; [|discriminate]. simpl in E'. now apply (E w post).
  - destruct (match_here r (a :: s)) as [[s' c]|] eqn:E.
    + split; [discriminate|]. intros H. exfalso.
      apply match_here_sound in E as (w & E & L & _).
      apply (H [] w s'); auto.
    + rewrite IH. rewrite match_here_none in E. split.
      * intros H pre w post E' L. destruct pre as [|b pre].
        -- simpl in E'. now apply (E w post).
        -- simpl in E'. inversion E'; subst. now apply (H pre w post).
      * intros H pre w post -> L. now apply (H (a :: pre) w post).
Qed.

Lemma regex_exec_some (r : regex) (s : jsstring) (m : match_result) :
  regex_exec r s = Some m ->
  exists pre post,
    s = pre ++ m_whole m ++ post /\ lang r (m_whole m) /\
    forall j, In j (groups r) -> m_caps m j <> None.
Proof.
  intros H. apply search_from_some in H as (pre & post & E & _ & L & D).
  exists pre, post. auto.
Qed.

Lemma regex_exec_none (r : regex) (s : jsstring) :
  regex_exec r s = None <->
  forall pre w post, s = pre ++ w ++ post -> ~ lang r w.
Proof. apply search_from_none. Qed.

(** ** Splitting terminates *)

Lemma split_loop_some (r : regex) (s : jsstring) :
  forall fuel p q,
    p <= q ->
    2 * (length s - q) + (if Nat.ltb p q then 1 else 0) < fuel ->
    exists l, split_loop r s fuel p q = Some l.
Proof.
  induction fuel as [|fuel IH]; intros p q Hpq Hf; [lia|]. simpl.
  destruct (Nat.ltb q (length s)) eqn:Hq; [|eauto].
  apply Nat.ltb_lt in Hq.
  assert (Hnext : exists l, split_loop r s fuel p (S q) = Some l).
  { apply IH; [lia|]. destruct (Nat.ltb p (S q)), (Nat.ltb p q); lia. }
  destruct (match_here r (skipn q s)) as [[s' c]|] eqn:E; [|exact Hnext].
  destruct (Nat.eqb (length s - length s') p) eqn:Ep; [exact Hnext|].
  apply Nat.eqb_neq in Ep.
  apply match_here_sound in E as (w & E & _ & _).
  assert (Hlen : length s' <= length s - q).
  { rewrite <- (length_skipn q s), E, length_app. lia. }
  destruct (IH (length s - length s') (length s - length s')) as [l Hl].
  - lia.
  - rewrite Nat.ltb_irrefl.
    destruct (Nat.ltb p q) eqn:Lt.
    + lia.
    + apply Nat.ltb_ge in Lt. lia.
  - rewrite Hl. eauto.
Qed.

(** [split] always returns: the fuel is never used up. *)
Lemma split_regex_total (r : regex) (s : jsstring) :
  exists l, split_regex r s = Some l.
Proof.
  unfold split_regex. destruct s as [|a s].
  - destruct (match_here r []); eauto.
  - apply split_loop_some; simpl; lia.
Qed.

Lemma split_char_nonempty (sep : char) (s : jsstring) : split_char sep s <> [].
Proof.
  destruct s as [|c s]; simpl; [discriminate|].
  destruct (char_eqb c sep); [discriminate|].
  destruct (split_char sep s); discriminate.
Qed.

Lemma lang_seq (r1 r2 : regex) (w1 w2 : jsstring) :
  lang r1 w1 -> lang r2 w2 -> lang (r1 ;; r2) (w1 ++ w2).
Proof. intros L1 L2. exists w1, w2. auto. Qed.

Lemma summaryRegex_none (output : jsstring) :
  regex_exec summaryRegex output = None <-> ~ has_summary_line output.
Proof.
  rewrite regex_exec_none. split.
  - intros H (pre & ws1 & n & ws2 & ws3 & m & post & -> & S1 & Dn & S2 & S3 & Dm).
    apply (H pre (lit "Tests:" ++ ws1 ++ n ++ lit "," ++ ws2 ++
                  lit "Assertions:" ++ ws3 ++ m ++ []) post).
    + now rewrite !app_nil_r, <- !app_assoc.
    + unfold summaryRegex.
      repeat (apply lang_seq;
              [first [reflexivity|exact S1|exact Dn|exact S2|exact S3|exact Dm]|]).
      now left.
  - intros H pre w post -> L. apply H.
    unfold summaryRegex in L. cbn [lang] in L.
    destruct L as (w1 & r1 & -> & -> & ws1 & r2 & -> & S1 & n & r3 & -> & Dn &
                   w4 & r4 & -> & -> & ws2 & r5 & -> & S2 & w6 & r6 & -> & -> &
                   ws3 & r7 & -> & S3 & m & tl & -> & Dm & _).
    exists pre, ws1, n, ws2, ws3, m, (tl ++ post).
    repeat split; try apply S1; try apply Dn; try apply S2; try apply S3;
      try apply Dm.
    now rewrite <- !app_assoc.
Qed.

Lemma forallb_is_any (w : jsstring) : forallb is_any w = true.
Proof. induction w; simpl; auto. Qed.

Lemma durationRegex_none (output : jsstring) :
  regex_exec durationRegex output = None <-> ~ has_time_line output.
Proof.
  rewrite regex_exec_none. split.
  - intros H (pre & ws & d & post & -> & S1 & Dn & Dd).
    apply (H pre (lit "Time:" ++ ws ++ d) post).
    + now rewrite <- !app_assoc.
    + unfold durationRegex.
      repeat (apply lang_seq; [first [reflexivity|exact S1]|]).
      split; assumption.
  - intros H pre w post -> L. apply H.
    unfold durationRegex in L. cbn [lang] in L.
    destruct L as (w1 & r1 & -> & -> & ws & d & -> & S1 & Dn & Dd).
    exists pre, ws, d, post. repeat split; try apply S1; auto.
    now rewrite <- !app_assoc.
Qed.

Lemma failureRegex_none (output : jsstring) :
  regex_exec failureRegex output = None <-> ~ has_failure_block output.
Proof.
  rewrite regex_exec_none. split.
  - intros H (pre & body & post & -> & Hb).
    apply (H pre ((lit "FAILURES!" ++ [nl]) ++ body ++ [nl; nl]) post).
    + now rewrite <- !app_assoc.
    + unfold failureRegex. apply lang_seq; [reflexivity|].
      apply lang_seq; [|reflexivity].
      split; [exact Hb|apply forallb_is_any].
  - intros H pre w post -> L. apply H.
    unfold failureRegex in L. cbn [lang] in L.
    destruct L as (w1 & r1 & -> & -> & body & w3 & -> & [Hb _] & ->).
    exists pre, body, post. split; [|exact Hb].
    now rewrite <- !app_assoc.
Qed.

(** ** The parser never throws *)

Lemma parseFailure_total (piece : jsstring) :
  exists fs, parseFailure piece = Return fs.
Proof.
  unfold parseFailure. destruct (truthy (trim piece)); [|eauto].
  pose proof (split_char_nonempty nl (trim piece)) as Hne.
  destruct (split_char nl (trim piece)) as [|first rest]; [congruence|].
  simpl. eauto.
Qed.

Lemma forEachFailure_total (pieces : list jsstring) :
  forall acc, exists fs, forEachFailure pieces acc = Return fs.
Proof.
  induction pieces as [|piece rest IH]; intros acc; simpl; [eauto|].
  destruct (parseFailure_total piece) as [fs ->]. simpl. apply IH.
Qed.

(** What [parseTestResults] returns, field by field. *)
Lemma parseTestResults_fields (output : jsstring) :
  exists s,
    parseTestResults output = Return s /\
    skipped s = Finite 0 /\
    passed s = num_sub (total s) (failed s) /\
    match regex_exec summaryRegex output with
    | Some m =>
        total s = parseInt_value (m_caps m 1) /\
        failed s = parseInt (or_default (m_caps m 3) (lit "0"))
    | None => total s = Finite 0 /\ failed s = Finite 0
    end /\
    duration s <> None /\
    match regex_exec durationRegex output with
    | Some m => duration s = m_caps m 1
    | None => duration s = Some []
    end /\
    (regex_exec failureRegex output = None -> failures s = []).
Proof.
  unfold parseTestResults.
  set (s1 := match regex_exec summaryRegex output with
             | Some _ => _ | None => _ end).
  set (s2 := match regex_exec durationRegex output with
             | Some _ => _ | None => _ end).
  assert (H1 : skipped s1 = Finite 0 /\
               passed s1 = num_sub (total s1) (failed s1) /\
               match regex_exec summaryRegex output with
               | Some m =>
                   total s1 = parseInt_value (m_caps m 1) /\
                   failed s1 = parseInt (or_default (m_caps m 3) (lit "0"))
               | None => total s1 = Finite 0 /\ failed s1 = Finite 0
               end /\
               duration s1 = Some [] /\ failures s1 = []).
  { subst s1. destruct (regex_exec summaryRegex output); simpl.
    - repeat split; reflexivity.
    - repeat split; reflexivity. }
  assert (H2 : skipped s2 = skipped s1 /\ passed s2 = passed s1 /\
               total s2 = total s1 /\ failed s2 = failed s1 /\
               failures s2 = failures s1 /\
               duration s2 <> None /\
               match regex_exec durationRegex output with
               | Some m => duration s2 = m_caps m 1
               | None => duration s2 = Some []
               end).
  { destruct H1 as (_ & _ & _ & D & _). subst s2.
    destruct (regex_exec durationRegex output) as [m|] eqn:M; simpl.
    - repeat split; auto.
      apply regex_exec_some in M as (_ & _ & _ & _ & G).
      apply G. simpl. auto.
    - repeat split; auto. congruence. }
  clearbody s2. clearbody s1.
  destruct H1 as (A & B & C & _ & F).
  destruct H2 as (A2 & B2 & T2 & F2 & L2 & D2 & E2).
  rewrite <- A2 in A. rewrite <- B2, <- T2, <- F2 in B.
  rewrite <- T2, <- F2 in C. rewrite <- L2 in F.
  assert (C' : match regex_exec summaryRegex output with
               | Some m =>
                   total s2 = parseInt_value (m_caps m 1) /\
                   failed s2 = parseInt (or_default (m_caps m 3) (lit "0"))
               | None => total s2 = Finite 0 /\ failed s2 = Finite 0
               end).
  { destruct (regex_exec summaryRegex output); exact C. }
  clear C A2 B2 T2 F2 L2 s1.
  destruct (regex_exec failureRegex output) as [m|] eqn:M.
  - apply regex_exec_some in M as (_ & _ & _ & _ & G).
    specialize (G 1 (or_introl eq_refl)).
    destruct (m_caps m 1) as [section|]; [|congruence].
    destruct (split_regex_total ordinalRegex section) as [pieces ->].
    destruct (forEachFailure_total pieces (failures s2)) as [fs ->].
    simpl. eexists. split; [reflexivity|]. simpl.
    split; [exact A|]. split; [exact B|]. split; [exact C'|].
    split; [exact D2|]. split; [exact E2|discriminate].
  - exists s2. split; [reflexivity|].
    split; [exact A|]. split; [exact B|]. split; [exact C'|].
    split; [exact D2|]. split; [exact E2|intros _; exact F].
Qed.

(** ** Digit runs *)

Lemma is_digit_range (c : char) : is_digit c = true <-> (48 <= c <= 57)%N.
Proof.
  unfold is_digit. rewrite andb_true_iff, !N.leb_le. tauto.
Qed.

Lemma digit_not_space (c : char) : is_digit c = true -> is_space c = false.
Proof.
  rewrite is_digit_range. intros H.
  unfold is_space, is_white_space, is_line_terminator. simpl.
  repeat match goal with
         | |- context [N.eqb ?a ?b] => destruct (N.eqb_spec a b); [lia|]
         end.
  destruct (N.leb_spec 8192 c); [lia|reflexivity].
Qed.

Lemma digit_value_digit (c : char) :
  is_digit c = true -> digit_value 10 c = Some (digit_val c).
Proof.
  intros H. unfold digit_value. rewrite H.
  apply is_digit_range in H. unfold digit_val.
  destruct (Z.ltb_spec (Z.of_N c - 48) 10); [reflexivity|lia].
Qed.

Lemma take_digits_digits (ds : jsstring) :
  forallb is_digit ds = true -> take_digits 10 ds = map digit_val ds.
Proof.
  induction ds as [|d ds IH]; simpl; [reflexivity|].
  intros H. apply andb_prop in H as [Hd H].
  rewrite (digit_value_digit _ Hd), IH; auto.
Qed.

(** [parseInt] reads a run of digits in full, in radix 10. *)
Lemma parseInt_digits (ds : jsstring) :
  digits ds -> parseInt ds = round_double (decimal_value ds).
Proof.
  intros [Hne Hd]. destruct ds as [|d ds]; [congruence|].
  simpl in Hd. apply andb_prop in Hd as [Hd Hds].
  unfold parseInt, trimStart. simpl drop_while.
  rewrite (digit_not_space _ Hd).
  pose proof (proj1 (is_digit_range d) Hd) as Rd.
  destruct (N.eqb_spec d 45); [lia|].
  destruct (N.eqb_spec d 43); [lia|].
  assert (Hall : forallb is_digit (d :: ds) = true)
    by (simpl; now rewrite Hd, Hds).
  assert (Hfin :
            match take_digits 10 (d :: ds) with
            | [] => NaN
            | z :: l => round_double (1 * digits_value 10 (z :: l))
            end = round_double (decimal_value (d :: ds))).
  { rewrite (take_digits_digits _ Hall). unfold decimal_value. simpl map.
    cbv iota. now rewrite Z.mul_1_l. }
  destruct ds as [|x ds]; [exact Hfin|].
  simpl in Hds. apply andb_prop in Hds as [Hx _].
  apply is_digit_range in Hx.
  destruct (N.eqb_spec x 120); [lia|]. destruct (N.eqb_spec x 88); [lia|].
  rewrite andb_false_r. exact Hfin.
Qed.

Lemma decimal_aux_digits (fuel : nat) :
  forall n acc,
    forallb is_digit acc = true ->
    forallb is_digit (decimal_aux fuel n acc) = true.
Proof.
  assert (D : forall n : N, is_digit (48 + n mod 10)%N = true).
  { intros n. apply is_digit_range.
    pose proof (N.mod_lt n 10 ltac:(discriminate)) as H.
    revert H. generalize (n mod 10)%N. intros; lia. }
  induction fuel as [|fuel IH]; intros n acc H; cbn [decimal_aux forallb].
  - now rewrite D, H.
  - destruct (n / 10 =? 0)%N.
    + cbn [forallb]. now rewrite D, H.
    + apply IH. cbn [forallb]. now rewrite D, H.
Qed.

Lemma decimal_aux_nonempty (fuel : nat) :
  forall n acc, decimal_aux fuel n acc <> [].
Proof.
  induction fuel as [|fuel IH]; intros n acc; simpl; [discriminate|].
  destruct (n / 10 =? 0)%N; [discriminate|apply IH].
Qed.

Lemma digits_decimal (n : N) : digits (decimal n).
Proof.
  split; [apply decimal_aux_nonempty|now apply decimal_aux_digits].
Qed.

Lemma digits_value_acc (ds : list Z) :
  forall a,
    fold_left (fun acc d => (acc * 10 + d)%Z) ds a =
    (a * 10 ^ Z.of_nat (length ds) +
     fold_left (fun acc d => (acc * 10 + d)%Z) ds 0)%Z.
Proof.
  induction ds as [|d ds IH]; intros a; simpl length.
  - simpl. lia.
  - cbn [fold_left]. rewrite (IH (a * 10 + d)%Z), (IH (0 * 10 + d)%Z).
    rewrite Nat2Z.inj_succ, Z.pow_succ_r by lia. lia.
Qed.

Lemma decimal_value_cons (d : char) (ds : jsstring) :
  decimal_value (d :: ds) =
  (digit_val d * 10 ^ Z.of_nat (length ds) + decimal_value ds)%Z.
Proof.
  unfold decimal_value, digits_value. cbn [map fold_left].
  rewrite digits_value_acc, length_map. reflexivity.
Qed.

Lemma decimal_aux_value (fuel : nat) :
  forall n acc,
    (n < 10 * 2 ^ N.of_nat fuel)%N ->
    decimal_value (decimal_aux fuel n acc) =
    (Z.of_N n * 10 ^ Z.of_nat (length acc) + decimal_value acc)%Z.
Proof.
  assert (V : forall n : N, digit_val (48 + n mod 10)%N = Z.of_N (n mod 10)).
  { intros n. unfold digit_val. lia. }
  induction fuel as [|fuel IH]; intros n acc Hn; cbn [decimal_aux].
  - rewrite decimal_value_cons, V.
    change (N.of_nat 0) with 0%N in Hn. rewrite N.pow_0_r in Hn.
    rewrite N.mod_small by lia. reflexivity.
  - destruct (N.eqb_spec (n / 10) 0) as [E|E].
    + rewrite decimal_value_cons, V.
      apply N.div_small_iff in E; [|discriminate].
      rewrite N.mod_small by exact E. reflexivity.
    + rewrite IH.
      * rewrite decimal_value_cons, V. cbn [length].
        rewrite Nat2Z.inj_succ, Z.pow_succ_r by lia.
        pose proof (N.div_mod n 10 ltac:(discriminate)) as Hdm.
        apply (f_equal Z.of_N) in Hdm.
        rewrite N2Z.inj_add, N2Z.inj_mul in Hdm.
        change (Z.of_N 10) with 10%Z in Hdm.
        rewrite Hdm. ring.
      * rewrite Nat2N.inj_succ, N.pow_succ_r' in Hn.
        apply N.Div0.div_lt_upper_bound. lia.
Qed.

(** Reading back a printed numeral gives the number. *)
Lemma decimal_value_decimal (n : N) : decimal_value (decimal n) = Z.of_N n.
Proof.
  unfold decimal. rewrite decimal_aux_value.
  - cbn [length]. change (decimal_value []) with 0%Z. simpl Z.of_nat. lia.
  - rewrite N2Nat.id. pose proof (N.size_gt n) as Hs.
    revert Hs. generalize (2 ^ N.size n)%N. intros; lia.
Qed.

(** ** Matching a summary line

    How the summary pattern runs on [Tests: <t>, Assertions: 5,
    Failures: <f>]: every greedy run takes all of its characters, since the
    character after it is outside the class. *)

Section Steps.
Variable R : Type.
Implicit Types (k : jsstring -> captures -> option R).

Lemma plus_greedy_longest p (ds rest : jsstring)
      (k : jsstring -> option R) (x : R) :
  ds <> [] -> forallb p ds = true ->
  plus_greedy p rest k = None -> k rest = Some x ->
  plus_greedy p (ds ++ rest) k = Some x.
Proof.
  intros Hne Hp Hstop Hk. induction ds as [|d ds IH]; [congruence|].
  simpl in Hp. apply andb_prop in Hp as [Hd Hp]. simpl. rewrite Hd.
  destruct ds as [|d' ds].
  - simpl. now rewrite Hstop.
  - rewrite IH; auto. discriminate.
Qed.

Lemma plus_greedy_stop p (d : char) (ds : jsstring)
      (k : jsstring -> option R) :
  p d = false -> plus_greedy p (d :: ds) k = None.
Proof. intros H. simpl. now rewrite H. Qed.

Lemma step_str (l : jsstring) (r : regex) s c k :
  matcher (Str l ;; r) (l ++ s) c k = matcher r s c k.
Proof. cbn [matcher]. now rewrite strip_prefix_app. Qed.

Lemma step_plus p (r : regex) (ws s : jsstring) c k (x : R) :
  ws <> [] -> forallb p ws = true ->
  plus_greedy p s (fun s' => matcher r s' c k) = None ->
  matcher r s c k = Some x ->
  matcher (PlusGreedy p ;; r) (ws ++ s) c k = Some x.
Proof. intros. cbn [matcher]. now apply plus_greedy_longest. Qed.

Lemma step_group_plus i p (r : regex) (ds s : jsstring) c k (x : R) :
  ds <> [] -> forallb p ds = true ->
  (forall h : jsstring -> option R, plus_greedy p s h = None) ->
  matcher r s (set_capture i ds c) k = Some x ->
  matcher (Group i (PlusGreedy p) ;; r) (ds ++ s) c k = Some x.
Proof.
  intros Hne Hp Hstop Hk. cbn [matcher].
  apply plus_greedy_longest; auto. now rewrite consumed_app.
Qed.

Lemma step_group_plus_end i p (ds : jsstring) c k (x : R) :
  ds <> [] -> forallb p ds = true ->
  k [] (set_capture i ds c) = Some x ->
  matcher (Group i (PlusGreedy p)) (ds ++ []) c k = Some x.
Proof.
  intros Hne Hp Hk. cbn [matcher].
  apply plus_greedy_longest; auto. now rewrite consumed_app.
Qed.

Lemma step_opt (r : regex) (s : jsstring) c k (x : R) :
  matcher r s c
    (fun s' c' => if Nat.eqb (length s') (length s) then None else k s' c')
  = Some x ->
  matcher (Opt r) s c k = Some x.
Proof. intros H. cbn [matcher]. now rewrite H. Qed.
End Steps.

Lemma search_from_here (r : regex) (idx : nat) (s s' : jsstring)
      (c : captures) :
  match_here r s = Some (s', c) ->
  search_from r idx s =
  Some {| m_index := idx; m_whole := consumed s s'; m_caps := c |}.
Proof. intros H. destruct s; simpl; now rewrite H. Qed.

Lemma summary_line_pieces (t f : jsstring) :
  summary_line t f =
  lit "Tests:" ++ lit " " ++ t ++ lit "," ++ lit " " ++ lit "Assertions:" ++
  lit " " ++ lit "5" ++ lit "," ++ lit " " ++ lit "Failures:" ++ lit " " ++
  f ++ [].
Proof. unfold summary_line. rewrite app_nil_r. reflexivity. Qed.

Lemma spaces_stop_at_digits (R : Type) (ds rest : jsstring)
      (k : jsstring -> option R) :
  digits ds -> plus_greedy is_space (ds ++ rest) k = None.
Proof.
  intros [Hne Hd]. destruct ds as [|d ds]; [congruence|].
  simpl in Hd. apply andb_prop in Hd as [Hd _].
  apply plus_greedy_stop. now apply digit_not_space.
Qed.

(** On a summary line the pattern matches at index 0, the first group is
    the tests numeral and the third the failures numeral. *)
Lemma summaryRegex_summary_line (t f : jsstring) :
  digits t -> digits f ->
  exists m,
    regex_exec summaryRegex (summary_line t f) = Some m /\
    m_caps m 1 = Some t /\ m_caps m 3 = Some f.
Proof.
  intros [Ht1 Ht2] [Hf1 Hf2].
  eexists. split.
  - unfold regex_exec. apply search_from_here.
    rewrite summary_line_pieces. unfold match_here, summaryRegex.
    rewrite step_str.
    apply step_plus; [discriminate|reflexivity| |].
    { apply spaces_stop_at_digits. now split. }
    apply step_group_plus; [assumption|assumption|reflexivity|].
    rewrite step_str.
    apply step_plus; [discriminate|reflexivity|reflexivity|].
    rewrite step_str.
    apply step_plus; [discriminate|reflexivity|reflexivity|].
    apply step_group_plus; [discriminate|reflexivity|reflexivity|].
    apply step_opt.
    rewrite step_str.
    apply step_plus; [discriminate|reflexivity|reflexivity|].
    rewrite step_str.
    apply step_plus; [discriminate|reflexivity| |].
    { apply spaces_stop_at_digits. now split. }
    apply step_group_plus_end; [assumption|assumption|].
    reflexivity.
  - split; reflexivity.
Qed.

(** ** Strings and numbers *)

Lemma str_eqb_eq (a b : jsstring) : str_eqb a b = true <-> a = b.
Proof.
  revert b. induction a as [|x a IH]; intros [|y b]; simpl;
    try (split; [discriminate|discriminate]); [tauto|].
  rewrite andb_true_iff, char_eqb_eq, IH. split.
  - intros [-> ->]. reflexivity.
  - intros E. inversion E. auto.
Qed.

Lemma remove_first_prefix (pat rest : jsstring) :
  remove_first pat (pat ++ rest) = rest.
Proof.
  destruct (pat ++ rest) eqn:E; simpl.
  - destruct pat; [simpl in E; subst; reflexivity|discriminate].
  - rewrite <- E, strip_prefix_app. reflexivity.
Qed.

Lemma startsWith_true (s p : jsstring) :
  startsWith s p = true -> exists rest, s = p ++ rest.
Proof.
  unfold startsWith. destruct (strip_prefix p s) as [rest|] eqn:E;
    [|discriminate].
  intros _. exists rest. now apply strip_prefix_some.
Qed.

(** Integers up to [2^53] in magnitude are doubles. *)
Lemma round_double_exact (z : Z) :
  (Z.abs z <= 2 ^ 53)%Z -> round_double z = Finite z.
Proof.
  intros H. unfold round_double.
  destruct (Z.ltb_spec (Z.abs z) (2 ^ 53)) as [Hlt|Hge]; [reflexivity|].
  assert (E : Z.abs z = (2 ^ 53)%Z) by lia.
  destruct (Z.abs_eq_or_opp z) as [A|A]; rewrite A in E.
  - rewrite E. reflexivity.
  - assert (Ez : z = (- 2 ^ 53)%Z) by lia. rewrite Ez. reflexivity.
Qed.

(** * The result parser *)

(** C5.  [parseTestResults] returns a summary for every input (it never
    throws, and the model's splitting loop never runs out of fuel); the
    result depends on the input text alone; and each pattern that is
    absent leaves the default of its fields: zero counters without a
    summary line, the empty duration without a [Time:] line, no failures
    without a [FAILURES!] block.  [skipped] is always zero and [duration]
    is never [undefined]. *)
Theorem parseTestResults_total (output : jsstring) :
  exists s,
    parseTestResults output = Return s /\
    skipped s = Finite 0 /\ duration s <> None /\
    (~ has_summary_line output ->
     total s = Finite 0 /\ passed s = Finite 0 /\ failed s = Finite 0) /\
    (~ has_time_line output -> duration s = Some []) /\
    (~ has_failure_block output -> failures s = []).
Proof.
  destruct (parseTestResults_fields output)
    as (s & E & Hsk & Hp & Hc & Hd & Ht & Hf).
  exists s. split; [exact E|]. split; [exact Hsk|]. split; [exact Hd|].
  split; [|split].
  - intros H. apply summaryRegex_none in H. rewrite H in Hc.
    destruct Hc as [Ht0 Hf0]. rewrite Hp, Ht0, Hf0. auto.
  - intros H. apply durationRegex_none in H. now rewrite H in Ht.
  - intros H. apply failureRegex_none in H. auto.
Qed.

(** C1, as amended.  When the output contains no [Tests: N, Assertions: M]
    the counters [total], [failed] and [passed] are zero; the failures list
    is empty when, in addition, the output contains no [FAILURES!] block. *)
Theorem parseTestResults_no_summary (output : jsstring) :
  ~ has_summary_line output ->
  exists s,
    parseTestResults output = Return s /\
    total s = Finite 0 /\ failed s = Finite 0 /\ passed s = Finite 0 /\
    (~ has_failure_block output -> failures s = []).
Proof.
  intros H.
  destruct (parseTestResults_fields output)
    as (s & E & _ & Hp & Hc & _ & _ & Hf).
  apply summaryRegex_none in H. rewrite H in Hc. destruct Hc as [Ht0 Hf0].
  exists s. rewrite Hp, Ht0, Hf0. repeat split; auto.
  intros Hb. apply failureRegex_none in Hb. auto.
Qed.

Lemma parseTestResults_no_summary_witness :
  ~ has_summary_line plain_output /\
  exists s,
    parseTestResults plain_output = Return s /\
    total s = Finite 0 /\ failed s = Finite 0 /\ passed s = Finite 0 /\
    (~ has_failure_block plain_output -> failures s = []).
Proof.
  assert (H : ~ has_summary_line plain_output)
    by (apply summaryRegex_none; vm_compute; reflexivity).
  split; [exact H|]. apply (@parseTestResults_no_summary plain_output H).
Defined.

(** C1, the claim as stated fails: this output has no summary line, and
    the parser still itemizes its [FAILURES!] block. *)
Lemma parseTestResults_failures_without_summary :
  ~ has_summary_line failures_only /\
  parseTestResults failures_only =
  Return {| total := Finite 0; passed := Finite 0; failed := Finite 0;
            skipped := Finite 0; duration := Some [];
            failures := [{| test := lit "LoginTest::testLogin";
                            message := lit "Expected true" |}] |}.
Proof.
  split.
  - apply summaryRegex_none. vm_compute. reflexivity.
  - vm_compute. reflexivity.
Qed.

(** C4, as amended.  For every input the summary has
    [passed = total - failed] (the subtraction of JavaScript numbers) and
    [skipped = 0]; and for naturals [failed <= total <= 2^53], parsing
    [Tests: {total}, Assertions: 5, Failures: {failed}] gives exactly
    these counters and [passed = total - failed]. *)
Theorem parseTestResults_passed (output : jsstring) (t f : N) :
  (f <= t)%N -> (t <= 2 ^ 53)%N ->
  (exists s,
     parseTestResults output = Return s /\
     passed s = num_sub (total s) (failed s) /\ skipped s = Finite 0) /\
  (exists s,
     parseTestResults (summary_line (decimal t) (decimal f)) = Return s /\
     total s = Finite (Z.of_N t) /\ failed s = Finite (Z.of_N f) /\
     passed s = Finite (Z.of_N t - Z.of_N f) /\ skipped s = Finite 0).
Proof.
  intros Hft Ht. split.
  - destruct (parseTestResults_fields output) as (s & E & Hsk & Hp & _).
    exists s. auto.
  - destruct (parseTestResults_fields (summary_line (decimal t) (decimal f)))
      as (s & E & Hsk & Hp & Hc & _).
    destruct (summaryRegex_summary_line (digits_decimal t) (digits_decimal f))
      as (m & Hm & C1 & C3).
    rewrite Hm, C1, C3 in Hc. destruct Hc as [Htot Hfail].
    assert (Hor : or_default (Some (decimal f)) (lit "0") = decimal f).
    { unfold or_default. destruct (digits_decimal f) as [Hne _].
      destruct (decimal f); [congruence|reflexivity]. }
    rewrite Hor in Hfail. simpl in Htot.
    rewrite parseInt_digits, decimal_value_decimal in Htot, Hfail
      by apply digits_decimal.
    assert (B : (Z.of_N t <= 2 ^ 53)%Z).
    { change (2 ^ 53)%Z with (Z.of_N (2 ^ 53)). lia. }
    rewrite round_double_exact in Htot, Hfail by lia.
    exists s. rewrite Hp, Htot, Hfail. simpl num_sub.
    rewrite round_double_exact by lia. auto.
Qed.

Lemma parseTestResults_passed_witness :
  (2 <= 10)%N /\ (10 <= 2 ^ 53)%N /\
  (exists s,
     parseTestResults (lit "Tests: 10, Assertions: 42, Failures: 2" ++ [nl] ++
                       lit "Time: 00:01.234") = Return s /\
     passed s = num_sub (total s) (failed s) /\ skipped s = Finite 0) /\
  (exists s,
     parseTestResults (summary_line (decimal 10) (decimal 2)) = Return s /\
     total s = Finite 10 /\ failed s = Finite 2 /\
     passed s = Finite (10 - 2) /\ skipped s = Finite 0).
Proof.
  assert (A : (2 <= 10)%N) by (vm_compute; discriminate).
  assert (B : (10 <= 2 ^ 53)%N) by (vm_compute; discriminate).
  split; [exact A|]. split; [exact B|].
  exact (@parseTestResults_passed
           (lit "Tests: 10, Assertions: 42, Failures: 2" ++ [nl] ++
            lit "Time: 00:01.234") 10 2 A B).
Defined.

(** C4, the claim as stated fails: [2^53 + 1] is not a JavaScript number,
    [parseInt] rounds its numeral to [2^53], and [passed] is not
    [total - failed] for the naturals written in the line. *)
Lemma parseTestResults_passed_rounds :
  (0 <= 9007199254740993)%N /\
  exists s,
    parseTestResults
      (summary_line (decimal 9007199254740993) (decimal 0)) = Return s /\
    passed s = Finite 9007199254740992 /\
    passed s <> Finite (9007199254740993 - 0).
Proof.
  split; [vm_compute; discriminate|].
  eexists. split; [vm_compute; reflexivity|].
  split; [reflexivity|]. simpl. discriminate.
Qed.

(** * Project validation and the runner *)

Section ServerFacts.
Variable P : Platform.

Lemma get_member_opt_defined (v : option json) (key : jsstring) :
  is_defined (get_member_opt v key) = true <->
  exists deps x, v = Some (JObject deps) /\ lookup key deps = Some x.
Proof.
  split.
  - destruct v as [[| | | | |deps]|]; simpl; try discriminate.
    destruct (lookup key deps) as [x|] eqn:E; [|discriminate].
    intros _. exists deps, x. auto.
  - intros (deps & x & -> & E). simpl. now rewrite E.
Qed.

Lemma declares_iff (composer : json) (section : jsstring) :
  declares composer section <->
  exists req,
    get_member composer section = Return req /\
    is_defined (get_member_opt req (lit "laravel/framework")) = true.
Proof.
  split.
  - intros (members & deps & v & -> & E1 & E2).
    exists (Some (JObject deps)). simpl. rewrite E1, E2. auto.
  - intros (req & E & D).
    apply get_member_opt_defined in D as (deps & x & -> & L).
    destruct composer as [| | | | |members]; simpl in E; try discriminate.
    inversion E as [E']. exists members, deps, x. auto.
Qed.

Lemma isLaravelProject_true (w : World P) (projectPath : jsstring) :
  isLaravelProject P w projectPath = true <-> qualifies P w projectPath.
Proof.
  unfold isLaravelProject, isLaravelProject_try, qualifies.
  destruct (fs_access P w (path_join [projectPath; lit "composer.json"]));
    simpl; [|split; [discriminate|intros [? _]; discriminate]].
  destruct (fs_access P w (path_join [projectPath; lit "artisan"]));
    simpl; [|split; [discriminate|intros (_ & ? & _); discriminate]].
  destruct (fs_readFile P w (path_join [projectPath; lit "composer.json"]))
    as [message|content];
    [split; [discriminate|intros (_ & _ & ? & ? & ? & _); discriminate]|].
  destruct (JSON_parse P content) as [composer|] eqn:EJ.
  2:{ split; [discriminate|].
      intros (_ & _ & c & j & Ec & Ej & _). inversion Ec; subst c.
      congruence. }
  apply iff_trans with
    (B := declares composer (lit "require") \/
          declares composer (lit "require-dev")).
  2:{ split.
      - intros D. repeat split; auto. exists content, composer. auto.
      - intros (_ & _ & c & j & Ec & Ej & D).
        inversion Ec; subst c. congruence. }
  rewrite !declares_iff.
  destruct (get_member composer (lit "require")) as [req|e] eqn:E1.
  - simpl.
    destruct (is_defined (get_member_opt req (lit "laravel/framework")))
             eqn:D1.
    + split; [|reflexivity]. intros _. left. exists req. auto.
    + destruct (get_member composer (lit "require-dev")) as [dev|e] eqn:E2;
        simpl.
      * split.
        -- intros D2. right. exists dev. auto.
        -- intros [(r & Er & Dr)|(r & Er & Dr)].
           ++ inversion Er; subst r. congruence.
           ++ inversion Er; subst r. exact Dr.
      * split; [discriminate|].
        intros [(r & Er & Dr)|(r & Er & Dr)]; [|discriminate].
        inversion Er; subst r. congruence.
  - simpl. split; [discriminate|].
    intros [(r & Er & _)|(r & Er & _)]; [discriminate|].
    destruct composer; simpl in E1, Er; discriminate.
Qed.

(** C7.  [isLaravelProject] answers [true] exactly for the directories
    that hold the manifest and the entry-point marker, where the manifest
    can be read, parses, and declares the framework key under [require]
    or [require-dev]; it answers [false] (its result is a Boolean: it
    never throws) when either file is missing, when the manifest does not
    parse, and when the key is in neither section. *)
Theorem isLaravelProject_spec (w : World P) (projectPath : jsstring) :
  (isLaravelProject P w projectPath = true <-> qualifies P w projectPath) /\
  (fs_access P w (path_join [projectPath; lit "composer.json"]) = false ->
   isLaravelProject P w projectPath = false) /\
  (fs_access P w (path_join [projectPath; lit "artisan"]) = false ->
   isLaravelProject P w projectPath = false) /\
  (forall content,
     fs_readFile P w (path_join [projectPath; lit "composer.json"]) =
     inr content ->
     JSON_parse P content = None ->
     isLaravelProject P w projectPath = false) /\
  (forall content composer,
     fs_readFile P w (path_join [projectPath; lit "composer.json"]) =
     inr content ->
     JSON_parse P content = Some composer ->
     ~ declares composer (lit "require") ->
     ~ declares composer (lit "require-dev") ->
     isLaravelProject P w projectPath = false).
Proof.
  pose proof (isLaravelProject_true w projectPath) as H.
  split; [exact H|].
  assert (F : ~ qualifies P w projectPath ->
              isLaravelProject P w projectPath = false).
  { intros N. destruct (isLaravelProject P w projectPath); [|reflexivity].
    exfalso. apply N, H. reflexivity. }
  repeat split.
  - intros E. apply F. intros (A & _). congruence.
  - intros E. apply F. intros (_ & A & _). congruence.
  - intros content Ec Ej. apply F.
    intros (_ & _ & c & j & Ec' & Ej' & _). congruence.
  - intros content composer Ec Ej N1 N2. apply F.
    intros (_ & _ & c & j & Ec' & Ej' & D).
    assert (c = content) by congruence. subst c.
    assert (j = composer) by congruence. subst j. tauto.
Qed.

(** C6.  [runCommand] validates the directory it is about to work in,
    the project argument or else the active project path; when the
    validation fails it throws an error that carries that path, and the
    state is left as it was: nothing is added to the spawned commands. *)
Theorem runCommand_invalid (command : jsstring)
        (projectPath : option jsstring) (st : State P) :
  isLaravelProject P (world st)
    (or_default projectPath (laravelPath (config st))) = false ->
  runCommand command projectPath st =
  (Throw (Error (lit "Not a valid Laravel project: " ++
                 or_default projectPath (laravelPath (config st)))), st) /\
  spawned (snd (runCommand command projectPath st)) = spawned st.
Proof.
  intros H. unfold runCommand. rewrite H. simpl. auto.
Qed.

(** In a valid directory the command is spawned there, once. *)
Lemma runCommand_valid (command : jsstring)
      (projectPath : option jsstring) (st : State P) :
  isLaravelProject P (world st)
    (or_default projectPath (laravelPath (config st))) = true ->
  spawned (snd (runCommand command projectPath st)) =
  spawned st ++
  [(command, or_default projectPath (laravelPath (config st)))].
Proof.
  intros H. unfold runCommand. rewrite H. simpl.
  destruct (execAsync P command _ (world st)) as [[message|[out err]] w'];
    reflexivity.
Qed.
End ServerFacts.

(** * Tool dispatch *)

Section DispatchFacts.
Variable P : Platform.

(** C8.  The catalog lists eight tools, and a call to any name that is
    not among them throws [Unknown tool: <name>] out of the handler,
    leaving the state as it was; no content item is returned. *)
Theorem callTool_unknown (tool : jsstring) (args : option Arguments)
        (st : State P) :
  ~ In tool toolNames ->
  length tools = 8 /\
  callTool tool args st =
  (Throw (Error (lit "Unknown tool: " ++ tool)), st).
Proof.
  intros H. split; [reflexivity|]. unfold callTool.
  repeat match goal with
         | |- context [str_eqb tool ?l] =>
             let E := fresh "E" in
             destruct (str_eqb tool l) eqn:E;
             [apply str_eqb_eq in E; exfalso; apply H; rewrite E;
              unfold toolNames; simpl; tauto|]
         end.
  reflexivity.
Qed.

(** C3, as amended.  [set_laravel_project] is the only tool with a
    required argument, and a call that lacks it (no arguments, no [path],
    or an empty one) throws [Project path is required] out of the
    handler, leaving the state as it was; no content item is returned. *)
Theorem callTool_missing_path (args : option Arguments) (st : State P) :
  truthy_string (arg arg_path args) = false ->
  (forall t, In t tools -> required t <> [] ->
             name t = lit "set_laravel_project") /\
  callTool (lit "set_laravel_project") args st =
  (Throw (Error (lit "Project path is required")), st).
Proof.
  intros H. split.
  - intros t Ht Hr. unfold tools in Ht. simpl in Ht.
    repeat (destruct Ht as [<-|Ht]; [try reflexivity; now elim Hr|]).
    destruct Ht.
  - unfold callTool.
    change (str_eqb (lit "set_laravel_project") (lit "set_laravel_project"))
      with true.
    cbv iota. unfold set_laravel_project. now rewrite H.
Qed.

Lemma set_laravel_project_changes (args : option Arguments) (st : State P) :
  forall r st',
    set_laravel_project args st = (r, st') ->
    world st' = world st /\ spawned st' = spawned st /\
    (config st' <> config st ->
     isLaravelProject P (world st) (laravelPath (config st')) = true).
Proof.
  intros r st'. unfold set_laravel_project.
  destruct (truthy_string (arg arg_path args)); simpl.
  - destruct (isLaravelProject P (world st) _) eqn:V; simpl;
      intros E; inversion E; subst; simpl; repeat split; auto; tauto.
  - intros E; inversion E; subst. repeat split; tauto.
Qed.

(** C9.  When [set_laravel_project] is called with a path that fails
    validation, the handler returns the textual validation error and the
    whole state, the active project path with it, is unchanged; and on
    every call the handler changes the configuration only to a path that
    has passed validation. *)
Theorem set_laravel_project_invalid (args : option Arguments)
        (path : jsstring) (st : State P) :
  arg arg_path args = Some path -> truthy path = true ->
  isLaravelProject P (world st) (path_resolve (process_cwd P) path) = false ->
  callTool (lit "set_laravel_project") args st =
  (Return (text_content
             (invalidProjectText (path_resolve (process_cwd P) path))), st) /\
  (forall args' st0 r st',
     callTool (lit "set_laravel_project") args' st0 = (r, st') ->
     config st' <> config st0 ->
     isLaravelProject P (world st0) (laravelPath (config st')) = true).
Proof.
  intros Ha Ht Hv.
  assert (D : forall a s,
             callTool (lit "set_laravel_project") a s =
             set_laravel_project a (s : State P)).
  { intros a s. unfold callTool.
    change (str_eqb (lit "set_laravel_project") (lit "set_laravel_project"))
      with true. reflexivity. }
  split.
  - rewrite D. unfold set_laravel_project. rewrite Ha. simpl.
    rewrite Ht. simpl. rewrite Hv. reflexivity.
  - intros args' st0 r st' E. rewrite D in E.
    apply set_laravel_project_changes in E. tauto.
Qed.

(** The command of [run_dusk_test], piece by piece: the base invocation,
    the test, the quoted filter, the group, and [--headed] unless
    [headless] is given as [true]. *)
Lemma duskCommand_shape (a : Arguments) :
  duskCommand (Some a) =
  lit "php artisan dusk" ++
  (if truthy_string (arg_test a)
   then lit " " ++ interpolate (arg_test a) else []) ++
  (if truthy_string (arg_filter a)
   then lit " --filter=" ++ quoted (interpolate (arg_filter a)) else []) ++
  (if truthy_string (arg_group a)
   then lit " --group=" ++ interpolate (arg_group a) else []) ++
  (if truthy_bool (arg_headless a) then [] else lit " --headed").
Proof.
  unfold duskCommand, arg, quoted.
  destruct (truthy_string (arg_test a)), (truthy_string (arg_filter a)),
    (truthy_string (arg_group a)), (truthy_bool (arg_headless a));
    cbv beta iota; cbn [negb];
    rewrite <- ?app_assoc, ?app_nil_r; reflexivity.
Qed.
End DispatchFacts.

(** ** The configuration changes in one place only *)

Section ConfigFacts.
Variable P : Platform.

Lemma keeps_ret (A : Type) (a : A) : keeps_config (ret (P := P) a).
Proof. intros st r st' E. inversion E. reflexivity. Qed.

Lemma keeps_lift (A : Type) (o : outcome A) : keeps_config (lift (P := P) o).
Proof. intros st r st' E. inversion E. reflexivity. Qed.

Lemma keeps_get_config : keeps_config (get_config (P := P)).
Proof. intros st r st' E. inversion E. reflexivity. Qed.

Lemma keeps_get_world : keeps_config (get_world (P := P)).
Proof. intros st r st' E. inversion E. reflexivity. Qed.

Lemma keeps_bind (A B : Type) (m : M P A) (f : A -> M P B) :
  keeps_config m -> (forall a, keeps_config (f a)) -> keeps_config (bind m f).
Proof.
  intros Hm Hf st r st' E. unfold bind in E.
  destruct (m st) as [[a|e] st1] eqn:E1.
  - apply Hf in E. apply Hm in E1. congruence.
  - inversion E; subst. now apply Hm in E1.
Qed.

Lemma keeps_try_catch (A : Type) (m : M P A) (h : error -> M P A) :
  keeps_config m -> (forall e, keeps_config (h e)) ->
  keeps_config (try_catch m h).
Proof.
  intros Hm Hh st r st' E. unfold try_catch in E.
  destruct (m st) as [[a|e] st1] eqn:E1.
  - inversion E; subst. now apply Hm in E1.
  - apply Hh in E. apply Hm in E1. congruence.
Qed.

Lemma keeps_runCommand (command : jsstring) (projectPath : option jsstring) :
  keeps_config (runCommand (P := P) command projectPath).
Proof.
  intros st r st' E. unfold runCommand in E.
  destruct (negb (isLaravelProject P (world st) _)).
  - inversion E. reflexivity.
  - destruct (execAsync P command _ (world st)) as [[message|[out err]] w'];
      inversion E; reflexivity.
Qed.

Lemma keeps_unlinkScreenshots (dir : jsstring) (files : list jsstring) :
  forall deleted, keeps_config (unlinkScreenshots (P := P) dir files deleted).
Proof.
  induction files as [|file rest IH]; intros deleted; simpl.
  - apply keeps_ret.
  - destruct (endsWith file (lit ".png")); [|apply IH].
    intros st r st' E.
    destruct (fs_unlink P (world st) _) as [message|w'].
    + inversion E. reflexivity.
    + apply IH in E. exact E.
Qed.

(** Every tool but [set_laravel_project] leaves the configuration alone,
    and [set_laravel_project] changes nothing but the project path, to a
    path that has passed validation. *)
Lemma callTool_config (tool : jsstring) (args : option Arguments)
      (st : State P) :
  forall r st',
    callTool tool args st = (r, st') ->
    screenshotsPath (config st') = screenshotsPath (config st) /\
    logsPath (config st') = logsPath (config st) /\
    (config st' <> config st ->
     tool = lit "set_laravel_project" /\
     isLaravelProject P (world st) (laravelPath (config st')) = true).
Proof.
  intros r st'. unfold callTool.
  destruct (str_eqb tool (lit "set_laravel_project")) eqn:E0.
  { apply str_eqb_eq in E0. intros E. unfold set_laravel_project in E.
    destruct (negb (truthy_string (arg arg_path args)));
      [inversion E; tauto|].
    destruct (negb (isLaravelProject P (world st) _)) eqn:V;
      inversion E; subst; simpl; [tauto|].
    apply negb_false_iff in V. auto. }
  assert (K : forall m : M P (list content_item),
             keeps_config m -> m st = (r, st') ->
             screenshotsPath (config st') = screenshotsPath (config st) /\
             logsPath (config st') = logsPath (config st) /\
             (config st' <> config st ->
              tool = lit "set_laravel_project" /\
              isLaravelProject P (world st) (laravelPath (config st')) =
              true)).
  { intros m Hm E. apply Hm in E. rewrite E. tauto. }
  repeat match goal with
         | |- context [if str_eqb tool ?l then _ else _] =>
             destruct (str_eqb tool l)
         end; apply K.
  - intros s0 r0 s1 E. unfold list_laravel_projects in E.
    destruct (findLaravelProjects P (world s0)); inversion E; reflexivity.
  - unfold run_dusk_test. apply keeps_try_catch.
    + apply keeps_bind; [apply keeps_runCommand|]. intros [out err].
      apply keeps_bind; [apply keeps_lift|]. intros res. apply keeps_ret.
    + intros e. apply keeps_ret.
  - intros s0 r0 s1 E. unfold list_dusk_tests in E.
    destruct (glob_sync P (world s0) _); inversion E; reflexivity.
  - unfold check_dusk_environment.
    apply keeps_bind; [apply keeps_get_config|]. intros cfg.
    apply keeps_bind; [apply keeps_get_world|]. intros w.
    apply keeps_bind.
    + apply keeps_try_catch.
      * apply keeps_bind; [apply keeps_runCommand|]. intros out.
        apply keeps_ret.
      * intros e. apply keeps_ret.
    + intros c3. apply keeps_bind; [apply keeps_get_world|]. intros w'.
      apply keeps_ret.
  - unfold clear_dusk_screenshots. apply keeps_try_catch.
    + apply keeps_bind; [apply keeps_get_config|]. intros cfg.
      apply keeps_bind; [apply keeps_get_world|]. intros w.
      apply keeps_bind; [apply keeps_lift|]. intros files.
      apply keeps_bind; [apply keeps_unlinkScreenshots|]. intros deleted.
      apply keeps_ret.
    + intros e. apply keeps_ret.
  - unfold install_chrome_driver. apply keeps_try_catch.
    + apply keeps_bind; [apply keeps_runCommand|]. intros [out err].
      apply keeps_ret.
    + intros e. apply keeps_ret.
  - intros s0 r0 s1 E. unfold start_dev_server in E.
    destruct (exec P _ _ (world s0)) as [[message|] w'];
      inversion E; reflexivity.
  - intros s0 r0 s1 E. inversion E. reflexivity.
Qed.
End ConfigFacts.

(** C2, where the code departs from the claim.  The catalog declares
    [headless] with the default [true], yet a call that leaves [headless]
    out runs the visible browser: the command ends in [--headed], with or
    without the other arguments. *)
Theorem duskCommand_headless_unspecified :
  (exists t p,
     In t tools /\ name t = lit "run_dusk_test" /\ In p (properties t) /\
     prop_name p = lit "headless" /\ prop_default p = Some (JBool true)) /\
  duskCommand None = lit "php artisan dusk --headed" /\
  duskCommand (Some no_arguments) = lit "php artisan dusk --headed" /\
  duskCommand
    (Some {| arg_path := None; arg_test := None;
             arg_filter := Some (lit "Login"); arg_group := None;
             arg_headless := None; arg_version := None; arg_port := None |}) =
  lit "php artisan dusk --filter=" ++ quoted (lit "Login") ++ lit " --headed".
Proof.
  split.
  - eexists. eexists. split; [right; right; left; reflexivity|].
    split; [reflexivity|].
    split; [right; right; right; left; reflexivity|].
    split; reflexivity.
  - repeat split; reflexivity.
Qed.

(** * Resources *)

(** ** Joining paths *)

Lemma split_char_app (sep : char) (a b : jsstring) :
  split_char sep (a ++ sep :: b) = split_char sep a ++ split_char sep b.
Proof.
  induction a as [|c a IH]; simpl.
  - unfold char_eqb. now rewrite N.eqb_refl.
  - destruct (char_eqb c sep); [now rewrite IH|].
    rewrite IH. pose proof (split_char_nonempty sep a) as Hne.
    destruct (split_char sep a); [congruence|reflexivity].
Qed.

Lemma normalize_segments_app (above : bool) (xs ys : list jsstring) :
  forall stack,
    normalize_segments above (xs ++ ys) stack =
    normalize_segments above ys (rev (normalize_segments above xs stack)).
Proof.
  induction xs as [|x xs IH]; intros stack; simpl.
  - now rewrite rev_involutive.
  - destruct (str_eqb x [] || str_eqb x (lit ".")); [apply IH|].
    destruct (str_eqb x (lit "..")); [|apply IH].
    destruct stack as [|top below]; [apply IH|].
    destruct (str_eqb top (lit "..")); apply IH.
Qed.

Lemma join_cons (sep x : jsstring) (rest : list jsstring) :
  rest <> [] -> join sep (x :: rest) = x ++ sep ++ join sep rest.
Proof. destruct rest; [congruence|reflexivity]. Qed.

Lemma join_snoc (sep a b : jsstring) (xs : list jsstring) :
  join sep (xs ++ [a; b]) = join sep (xs ++ [a]) ++ sep ++ b.
Proof.
  induction xs as [|x xs IH]; [reflexivity|].
  rewrite <- !app_comm_cons.
  rewrite !join_cons by (destruct xs; discriminate).
  now rewrite IH, <- !app_assoc.
Qed.

Lemma strip_prefix_common (p u v : jsstring) :
  strip_prefix (p ++ v) (p ++ u) = strip_prefix v u.
Proof.
  induction p as [|c p IH]; simpl; [reflexivity|].
  unfold char_eqb. now rewrite N.eqb_refl.
Qed.

Lemma startsWith_common (p u v : jsstring) :
  startsWith (p ++ u) (p ++ v) = startsWith u v.
Proof. unfold startsWith. now rewrite strip_prefix_common. Qed.

(** Normalizing [l/tail] continues the normalization of [l] with the
    segments of [tail], when the result has segments and [tail] does not
    end in a slash. *)
Lemma path_normalize_under (l tail : jsstring) (out : list jsstring) :
  l <> [] ->
  ends_with_slash (l ++ slash :: tail) = false ->
  normalize_segments (negb (is_absolute l)) (split_char slash tail)
    (rev (segments_of l)) = out ->
  join [slash] out <> [] ->
  path_normalize (l ++ slash :: tail) = root_of l ++ join [slash] out.
Proof.
  intros Hl Hend Hout Hne. unfold path_normalize.
  assert (Ha : is_absolute (l ++ slash :: tail) = is_absolute l).
  { destruct l; [congruence|reflexivity]. }
  destruct (l ++ slash :: tail) as [|d p] eqn:E.
  { destruct l; discriminate. }
  cbv zeta. rewrite Hend, Ha. unfold normalizeString.
  rewrite <- E, split_char_app, normalize_segments_app.
  fold (segments_of l). rewrite Hout.
  destruct (join [slash] out) as [|e r] eqn:J; [congruence|].
  unfold root_of. destruct (is_absolute l); reflexivity.
Qed.

(** The three paths of the escape: the file named by [../../x], the
    artifact directory, and [tests/x] under the project. *)
Lemma path_join_escape (l : jsstring) :
  path_join [l; lit "tests/Browser/screenshots"; lit "../../x"] =
  root_of l ++ join [slash] (segments_of l ++ [lit "tests"]) ++ lit "/x" /\
  path_join [l; lit "tests/Browser/screenshots"] =
  root_of l ++ join [slash] (segments_of l ++ [lit "tests"]) ++
  lit "/Browser/screenshots" /\
  path_join [l; lit "tests/x"] =
  root_of l ++ join [slash] (segments_of l ++ [lit "tests"]) ++ lit "/x".
Proof.
  destruct l as [|c0 l0] eqn:El; [repeat split; reflexivity|].
  rewrite <- El. assert (Hl : l <> []) by (rewrite El; discriminate).
  clear El c0 l0.
  assert (T : truthy l = true) by (destruct l; [congruence|reflexivity]).
  assert (Hend : forall tail c,
             ends_with_slash (l ++ slash :: tail ++ [c]) = char_eqb c slash).
  { intros tail c. unfold ends_with_slash.
    change (slash :: tail ++ [c]) with ((slash :: tail) ++ [c]).
    rewrite app_assoc, rev_app_distr. reflexivity. }
  unfold path_join. simpl filter. rewrite T.
  split; [|split].
  - change (join [slash] [l; lit "tests/Browser/screenshots"; lit "../../x"])
      with (l ++ slash :: lit "tests/Browser/screenshots/../../x").
    rewrite (@path_normalize_under l _
               (segments_of l ++ [lit "tests"; lit "x"])); auto.
    + now rewrite join_snoc.
    + apply (Hend (lit "tests/Browser/screenshots/../../") 120%N).
    + simpl. now rewrite rev_involutive, <- app_assoc.
    + rewrite join_snoc. destruct (join _ _); discriminate.
  - change (join [slash] [l; lit "tests/Browser/screenshots"])
      with (l ++ slash :: lit "tests/Browser/screenshots").
    rewrite (@path_normalize_under l _
               (segments_of l ++
                [lit "tests"; lit "Browser"; lit "screenshots"])); auto.
    + change [lit "tests"; lit "Browser"; lit "screenshots"]
        with ([lit "tests"] ++ [lit "Browser"; lit "screenshots"]).
      rewrite app_assoc, join_snoc.
      change [lit "tests"; lit "Browser"]
        with ([lit "tests"] ++ [lit "Browser"]).
      rewrite <- !app_assoc. simpl app at 2.
      rewrite join_snoc, <- !app_assoc. reflexivity.
    + apply (Hend (lit "tests/Browser/screenshot") 115%N).
    + simpl. now rewrite rev_involutive, <- !app_assoc.
    + change [lit "tests"; lit "Browser"; lit "screenshots"]
        with ([lit "tests"] ++ [lit "Browser"; lit "screenshots"]).
      rewrite app_assoc, join_snoc. destruct (join _ _); discriminate.
  - change (join [slash] [l; lit "tests/x"])
      with (l ++ slash :: lit "tests/x").
    rewrite (@path_normalize_under l _
               (segments_of l ++ [lit "tests"; lit "x"])); auto.
    + now rewrite join_snoc.
    + apply (Hend (lit "tests/") 120%N).
    + simpl. now rewrite rev_involutive, <- app_assoc.
    + rewrite join_snoc. destruct (join _ _); discriminate.
Qed.

(** ** Reading a resource *)

Section ResourceFacts.
Variable P : Platform.

Lemma readResource_screenshot (filename : jsstring) (st : State P) :
  readResource (lit "screenshot://" ++ filename) st =
  (screenshotAnswer (lit "screenshot://" ++ filename)
     (fs_readFile_base64 P (world st)
        (path_join [laravelPath (config st); screenshotsPath (config st);
                    filename])), st).
Proof.
  unfold readResource, startsWith.
  rewrite strip_prefix_app, remove_first_prefix. unfold screenshotAnswer.
  destruct (fs_readFile_base64 P (world st) _); reflexivity.
Qed.

Lemma readResource_log (filename : jsstring) (st : State P) :
  readResource (lit "log://" ++ filename) st =
  (logAnswer (lit "log://" ++ filename)
     (fs_readFile P (world st)
        (path_join [laravelPath (config st); logsPath (config st);
                    filename])), st).
Proof.
  unfold readResource.
  change (startsWith (lit "log://" ++ filename) (lit "screenshot://"))
    with false.
  cbv iota. unfold startsWith.
  rewrite strip_prefix_app, remove_first_prefix. unfold logAnswer.
  destruct (fs_readFile P (world st) _); reflexivity.
Qed.

(** C10.  The read handler joins the active project path, the artifact
    subdirectory and whatever follows the scheme in the URI, and reads
    the file at the resulting path, with no check that it stays in the
    directory.  For [screenshot://../../x] the file read is [tests/x]
    under the project, which is not below the screenshots directory. *)
Theorem readResource_no_containment (st : State P) :
  screenshotsPath (config st) = lit "tests/Browser/screenshots" ->
  (forall filename,
     readResource (lit "screenshot://" ++ filename) st =
     (screenshotAnswer (lit "screenshot://" ++ filename)
        (fs_readFile_base64 P (world st)
           (path_join [laravelPath (config st);
                       screenshotsPath (config st); filename])), st)) /\
  (forall filename,
     readResource (lit "log://" ++ filename) st =
     (logAnswer (lit "log://" ++ filename)
        (fs_readFile P (world st)
           (path_join [laravelPath (config st); logsPath (config st);
                       filename])), st)) /\
  readResource (lit "screenshot://../../x") st =
  (screenshotAnswer (lit "screenshot://../../x")
     (fs_readFile_base64 P (world st)
        (path_join [laravelPath (config st); lit "tests/x"])), st) /\
  startsWith
    (path_join [laravelPath (config st); lit "tests/x"])
    (path_join [laravelPath (config st); screenshotsPath (config st)] ++
     [slash]) = false.
Proof.
  intros Hs.
  split; [intros; apply readResource_screenshot|].
  split; [intros; apply readResource_log|].
  destruct (path_join_escape (laravelPath (config st))) as (E1 & E2 & E3).
  split.
  - change (lit "screenshot://../../x")
      with (lit "screenshot://" ++ lit "../../x").
    rewrite readResource_screenshot, Hs, E1, E3. reflexivity.
  - rewrite Hs, E2, E3.
    rewrite !app_assoc, <- (app_assoc _ (lit "/Browser/screenshots")).
    rewrite startsWith_common. reflexivity.
Qed.
End ResourceFacts.

(** * The theorems at work *)

Lemma runCommand_invalid_witness :
  isLaravelProject demo_platform (world stray_state)
    (or_default None (laravelPath (config stray_state))) = false /\
  runCommand (lit "php artisan dusk") None stray_state =
  (Throw (Error (lit "Not a valid Laravel project: /srv")), stray_state) /\
  spawned (snd (runCommand (lit "php artisan dusk") None stray_state)) = [].
Proof.
  assert (H : isLaravelProject demo_platform (world stray_state)
                (or_default None (laravelPath (config stray_state))) = false)
    by reflexivity.
  split; [exact H|].
  exact (@runCommand_invalid demo_platform (lit "php artisan dusk") None
           stray_state H).
Defined.

Lemma callTool_unknown_witness :
  ~ In (lit "bogus_tool") toolNames /\
  length tools = 8 /\
  callTool (lit "bogus_tool") (Some no_arguments) demo_state =
  (Throw (Error (lit "Unknown tool: bogus_tool")), demo_state).
Proof.
  assert (H : ~ In (lit "bogus_tool") toolNames).
  { unfold toolNames. simpl.
    intros [E|[E|[E|[E|[E|[E|[E|[E|[]]]]]]]]]; discriminate E. }
  split; [exact H|].
  exact (@callTool_unknown demo_platform (lit "bogus_tool")
           (Some no_arguments) demo_state H).
Defined.

Lemma callTool_missing_path_witness :
  truthy_string (arg arg_path (Some no_arguments)) = false /\
  (forall t, In t tools -> required t <> [] ->
             name t = lit "set_laravel_project") /\
  callTool (lit "set_laravel_project") (Some no_arguments) demo_state =
  (Throw (Error (lit "Project path is required")), demo_state).
Proof.
  split; [reflexivity|].
  exact (@callTool_missing_path demo_platform (Some no_arguments) demo_state
           eq_refl).
Defined.

(** C3, the claim as stated fails: called without a path, the tool throws
    instead of returning a content item. *)
Lemma callTool_missing_path_throws :
  In (lit "set_laravel_project") toolNames /\
  arg arg_path (Some no_arguments) = None /\
  fst (callTool (lit "set_laravel_project") (Some no_arguments) demo_state) =
  Throw (Error (lit "Project path is required")) /\
  forall content,
    fst (callTool (lit "set_laravel_project") (Some no_arguments) demo_state)
    <> Return content.
Proof.
  split; [left; reflexivity|]. split; [reflexivity|].
  split; [reflexivity|]. intros content. discriminate.
Qed.

Lemma set_laravel_project_invalid_witness :
  arg arg_path (Some stray_arguments) = Some (lit "/srv/elsewhere") /\
  truthy (lit "/srv/elsewhere") = true /\
  isLaravelProject demo_platform (world demo_state)
    (path_resolve (process_cwd demo_platform) (lit "/srv/elsewhere")) = false /\
  callTool (lit "set_laravel_project") (Some stray_arguments) demo_state =
  (Return (text_content
             (invalidProjectText
                (path_resolve (process_cwd demo_platform)
                   (lit "/srv/elsewhere")))), demo_state) /\
  (forall args' st0 r st',
     callTool (lit "set_laravel_project") args' st0 = (r, st') ->
     config st' <> config st0 ->
     isLaravelProject demo_platform (world st0)
       (laravelPath (config st')) = true).
Proof.
  split; [reflexivity|]. split; [reflexivity|]. split; [reflexivity|].
  exact (@set_laravel_project_invalid demo_platform (Some stray_arguments)
           (lit "/srv/elsewhere") demo_state eq_refl eq_refl eq_refl).
Defined.

Lemma readResource_no_containment_witness :
  screenshotsPath (config demo_state) = lit "tests/Browser/screenshots" /\
  readResource (lit "screenshot://../../x") demo_state =
  (screenshotAnswer (lit "screenshot://../../x")
     (fs_readFile_base64 demo_platform (world demo_state)
        (path_join [laravelPath (config demo_state); lit "tests/x"])),
   demo_state) /\
  startsWith
    (path_join [laravelPath (config demo_state); lit "tests/x"])
    (path_join [laravelPath (config demo_state);
                screenshotsPath (config demo_state)] ++ [slash]) = false.
Proof.
  split; [reflexivity|].
  exact (proj2 (proj2 (@readResource_no_containment demo_platform demo_state
                         eq_refl))).
Defined.

(** The demo project validates, and setting it makes it the active one. *)
Example demo_project_valid :
  isLaravelProject demo_platform demo_world (lit "/srv/app") = true /\
  isLaravelProject demo_platform demo_world (lit "/srv") = false.
Proof. split; reflexivity. Qed.

Example scenarioA :
  exists s,
    parseTestResults (lit "Tests: 10, Assertions: 42, Failures: 2" ++ [nl] ++
                      lit "Time: 00:01.234") = Return s /\
    total s = Finite 10 /\ passed s = Finite 8 /\ failed s = Finite 2 /\
    duration s = Some (lit "00:01.234").
Proof. eexists. split; [vm_compute; reflexivity|]. repeat split. Qed.

(** * Discovery and start-up *)

Lemma existsb_str_eqb (x : jsstring) (l : list jsstring) :
  existsb (str_eqb x) l = true <-> In x l.
Proof.
  rewrite existsb_exists. split.
  - intros (y & Hy & E). apply str_eqb_eq in E. now subst.
  - intros H. exists x. split; [exact H|]. now apply str_eqb_eq.
Qed.

Lemma dedup_in (l : list jsstring) :
  forall seen x, In x (dedup seen l) <-> In x l /\ ~ In x seen.
Proof.
  induction l as [|y l IH]; intros seen x; simpl; [tauto|].
  destruct (existsb (str_eqb y) seen) eqn:E.
  - apply existsb_str_eqb in E. rewrite IH. split.
    + intros [H N]. auto.
    + intros [[->|H] N]; [contradiction|auto].
  - assert (N : ~ In y seen).
    { intros H. apply existsb_str_eqb in H. congruence. }
    simpl. rewrite IH. simpl. split.
    + intros [->|[H M]]; [auto|]. split; [auto|]. intros Hs. apply M. auto.
    + intros [[->|H] M]; [auto|].
      destruct (list_eq_dec N.eq_dec y x) as [->|D]; [auto|].
      right. split; [exact H|]. intros [->|Hs]; [congruence|contradiction].
Qed.

Lemma dedup_NoDup (l : list jsstring) : forall seen, NoDup (dedup seen l).
Proof.
  induction l as [|y l IH]; intros seen; simpl; [constructor|].
  destruct (existsb (str_eqb y) seen); [apply IH|].
  constructor; [|apply IH].
  rewrite dedup_in. intros [_ N]. apply N. now left.
Qed.

Section DiscoveryFacts.
Variable P : Platform.

Lemma scanSearchPath_in (w : World P) (root p : jsstring) :
  In p (scanSearchPath P w root) <->
  exists dirs dir,
    fs_readdir P w root = inr dirs /\ In dir dirs /\
    p = path_join [root; dir] /\
    fs_stat_isDirectory P w p = inr true /\
    isLaravelProject P w p = true.
Proof.
  unfold scanSearchPath.
  destruct (fs_readdir P w root) as [message|dirs].
  - split; [intros []|]. intros (ds & d & E & _). discriminate.
  - rewrite filter_In, in_map_iff. split.
    + intros [(dir & <- & Hd) H].
      exists dirs, dir. repeat split; auto;
        destruct (fs_stat_isDirectory P w _) as [m|[|]]; congruence.
    + intros (ds & dir & E & Hd & -> & Hs & Hv).
      inversion E; subst ds. split; [exists dir; auto|].
      now rewrite Hs.
Qed.

Lemma findLaravelProjects_in (w : World P) (p : jsstring) :
  In p (findLaravelProjects P w) <-> discovered P w p.
Proof.
  unfold findLaravelProjects, discovered.
  rewrite dedup_in, in_flat_map. split.
  - intros [(root & Hr & H) _]. apply scanSearchPath_in in H.
    destruct H as (dirs & dir & H). exists root, dirs, dir. tauto.
  - intros (root & dirs & dir & Hr & H). split; [|intros []].
    exists root. split; [exact Hr|]. apply scanSearchPath_in.
    exists dirs, dir. exact H.
Qed.

(** X1.  [findLaravelProjects] returns exactly the directories that lie
    right under a listable search root and validate as projects, each one
    once: a root that cannot be listed, an entry that is not a directory
    and a directory that is not a project contribute nothing and stop
    nothing. *)
Theorem findLaravelProjects_spec (w : World P) :
  (forall p, In p (findLaravelProjects P w) <-> discovered P w p) /\
  NoDup (findLaravelProjects P w) /\
  (forall root,
     (forall dirs, fs_readdir P w root <> inr dirs) ->
     scanSearchPath P w root = []).
Proof.
  split; [intros p; apply findLaravelProjects_in|].
  split; [apply dedup_NoDup|].
  intros root H. unfold scanSearchPath.
  destruct (fs_readdir P w root) as [m|dirs]; [reflexivity|].
  now elim (H dirs).
Qed.

(** X2.  [initialize] changes nothing but the project path; it keeps a
    configured path that validates, and otherwise takes the first
    discovered project, so that afterwards the active path is a valid
    project exactly when the configured one was or discovery found
    one. *)
Theorem initialize_spec (st : State P) :
  world (initialize st) = world st /\
  spawned (initialize st) = spawned st /\
  screenshotsPath (config (initialize st)) = screenshotsPath (config st) /\
  logsPath (config (initialize st)) = logsPath (config st) /\
  (isLaravelProject P (world st) (laravelPath (config st)) = true ->
   initialize st = st) /\
  (laravelPath (config (initialize st)) <> laravelPath (config st) ->
   discovered P (world st) (laravelPath (config (initialize st)))) /\
  (isLaravelProject P (world st) (laravelPath (config (initialize st))) = true
   <->
   isLaravelProject P (world st) (laravelPath (config st)) = true \/
   exists p, discovered P (world st) p).
Proof.
  unfold initialize.
  destruct (isLaravelProject P (world st) (laravelPath (config st))) eqn:V;
    simpl.
  - rewrite V. repeat split; auto; try tauto; congruence.
  - destruct (findLaravelProjects P (world st)) as [|first rest] eqn:F; simpl.
    + rewrite V. repeat split; auto; try congruence.
      intros [H|[p H]]; [discriminate|].
      apply findLaravelProjects_in in H. rewrite F in H. destruct H.
    + assert (D : discovered P (world st) first).
      { apply findLaravelProjects_in. rewrite F. now left. }
      assert (Hv : isLaravelProject P (world st) first = true).
      { destruct D as (? & ? & ? & _ & _ & _ & _ & _ & Hv). exact Hv. }
      rewrite Hv. repeat split; auto; try discriminate.
      right. exists first. exact D.
Qed.
End DiscoveryFacts.

Example disk_discovery :
  findLaravelProjects disk_platform disk_world = [lit "/srv/app"] /\
  laravelPath (config (initialize disk_stray_state)) = lit "/srv/app".
Proof. split; vm_compute; reflexivity. Qed.

(** * What the tools do *)

Section HandlerFacts.
Variable P : Platform.

Lemma duskCommand_prefix (args : option Arguments) :
  exists rest, duskCommand args = lit "php artisan " ++ lit "dusk" ++ rest.
Proof.
  unfold duskCommand.
  change (lit "php artisan dusk") with (lit "php artisan " ++ lit "dusk").
  destruct (truthy_string (arg arg_test args)),
    (truthy_string (arg arg_filter args)),
    (truthy_string (arg arg_group args)),
    (negb (truthy_bool (arg arg_headless args)));
    rewrite <- ?app_assoc; eexists; reflexivity.
Qed.

(** The four ways [run_dusk_test] ends. *)
Lemma run_dusk_test_cases (args : option Arguments) (st : State P) :
  let cwd := laravelPath (config st) in
  if isLaravelProject P (world st) cwd then
    match execAsync P (duskCommand args) cwd (world st) with
    | (inl message, w') =>
        run_dusk_test args st =
        (Return (text_content
                   (lit "Error running Dusk tests: " ++
                    lit "Command failed: " ++ message)),
         after_spawn st (duskCommand args) cwd w')
    | (inr (stdout, stderr), w') =>
        exists results,
          parseTestResults stdout = Return results /\
          run_dusk_test args st =
          (Return (text_content (formatResults P results stderr)),
           after_spawn st (duskCommand args) cwd w')
    end
  else
    run_dusk_test args st =
    (Return (text_content
               (lit "Error running Dusk tests: " ++
                lit "Not a valid Laravel project: " ++ cwd)), st).
Proof.
  unfold run_dusk_test, try_catch, bind, runCommand, lift, ret, after_spawn.
  simpl or_default.
  destruct (isLaravelProject P (world st) (laravelPath (config st))); simpl.
  - destruct (execAsync P (duskCommand args) _ (world st))
      as [[message|[out err]] w']; simpl; [reflexivity|].
    destruct (parseTestResults_fields out) as (results & E & _).
    exists results. split; [exact E|]. rewrite E. reflexivity.
  - reflexivity.
Qed.


(** X4.  When the command succeeds and its output has no summary line,
    [run_dusk_test] reports zero tests and [All tests passed!], whatever
    else the output says. *)
Theorem run_dusk_test_no_summary (args : option Arguments) (st : State P)
        (stdout stderr : jsstring) (w' : World P) :
  isLaravelProject P (world st) (laravelPath (config st)) = true ->
  execAsync P (duskCommand args) (laravelPath (config st)) (world st) =
  (inr (stdout, stderr), w') ->
  ~ has_summary_line stdout ->
  exists results,
    parseTestResults stdout = Return results /\
    total results = Finite 0 /\ passed results = Finite 0 /\
    failed results = Finite 0 /\
    fst (run_dusk_test args st) =
    Return (text_content (allPassedText P results stderr)).
Proof.
  intros V E N.
  pose proof (run_dusk_test_cases args st) as H. cbv zeta in H.
  rewrite V, E in H. destruct H as (results & R & H).
  destruct (parseTestResults_fields stdout)
    as (s & Es & _ & Hp & Hc & _).
  assert (s = results) by congruence. subst s.
  apply summaryRegex_none in N. rewrite N in Hc. destruct Hc as [Ht Hf].
  exists results. rewrite H, Hp, Ht, Hf. repeat split; auto.
  simpl fst. unfold formatResults, allPassedText. rewrite Hf.
  reflexivity.
Qed.
End HandlerFacts.

Lemma run_dusk_test_no_summary_witness :
  isLaravelProject demo_platform (world demo_state)
    (laravelPath (config demo_state)) = true /\
  execAsync demo_platform (duskCommand (Some no_arguments))
    (laravelPath (config demo_state)) (world demo_state) =
  (inr ([], []), demo_world) /\
  ~ has_summary_line [] /\
  exists results,
    parseTestResults [] = Return results /\
    total results = Finite 0 /\ passed results = Finite 0 /\
    failed results = Finite 0 /\
    fst (run_dusk_test (Some no_arguments) demo_state) =
    Return (text_content (allPassedText demo_platform results [])).
Proof.
  assert (N : ~ has_summary_line [])
    by (apply summaryRegex_none; vm_compute; reflexivity).
  split; [reflexivity|]. split; [reflexivity|]. split; [exact N|].
  exact (@run_dusk_test_no_summary demo_platform (Some no_arguments)
           demo_state [] [] demo_world eq_refl eq_refl N).
Defined.

Section EffectFacts.
Variable P : Platform.

Lemma with_world_same (st : State P) : with_world st (world st) = st.
Proof. destruct st; reflexivity. Qed.

(** The loop of [clear_dusk_screenshots] unlinks the [.png] entries in
    listing order and counts them. *)
Lemma unlinkScreenshots_spec (dir : jsstring) (files : list jsstring) :
  forall deleted st,
    unlinkScreenshots dir files deleted st =
    match unlink_each P (world st) (pngPaths dir files) with
    | (w', None) =>
        (Return (deleted +
                 Z.of_nat (length (filter (fun file =>
                                             endsWith file (lit ".png"))
                                          files)))%Z,
         with_world st w')
    | (w', Some message) => (Throw (Error message), with_world st w')
    end.
Proof.
  unfold pngPaths.
  induction files as [|file rest IH]; intros deleted st; simpl.
  - unfold ret. now rewrite with_world_same, Z.add_0_r.
  - destruct (endsWith file (lit ".png")); [|apply IH].
    cbn [map unlink_each filter length].
    destruct (fs_unlink P (world st) _) as [message|w'].
    + now rewrite with_world_same.
    + rewrite IH. simpl world.
      destruct (unlink_each P w' _) as [w'' [message|]];
        unfold with_world; simpl; [reflexivity|].
      do 2 f_equal. lia.
Qed.

(** X5.  [clear_dusk_screenshots] never throws and spawns nothing.  When
    the directory cannot be listed it reports the error and changes
    nothing; otherwise it unlinks the entries that end in [.png], and no
    others, in listing order, stops at the first failure, which it
    reports, and else reports how many there were. *)
Theorem clear_dusk_screenshots_spec (st : State P) :
  let dir := path_join [laravelPath (config st); screenshotsPath (config st)] in
  clear_dusk_screenshots st =
  match fs_readdir P (world st) dir with
  | inl message =>
      (Return (text_content (lit "Error clearing screenshots: " ++ message)),
       st)
  | inr files =>
      match unlink_each P (world st) (pngPaths dir files) with
      | (w', None) =>
          (Return (text_content
                     (clearedText P (Z.of_nat (length (pngPaths dir files))))),
           with_world st w')
      | (w', Some message) =>
          (Return (text_content
                     (lit "Error clearing screenshots: " ++ message)),
           with_world st w')
      end
  end.
Proof.
  intros dir. unfold clear_dusk_screenshots, try_catch, bind, get_config,
    get_world, lift, ret. fold dir.
  destruct (fs_readdir P (world st) dir) as [message|files]; [reflexivity|].
  rewrite unlinkScreenshots_spec.
  destruct (unlink_each P (world st) (pngPaths dir files))
    as [w' [message|]]; [reflexivity|].
  unfold pngPaths at 1. rewrite length_map. reflexivity.
Qed.

(** The three ways [check_dusk_environment] ends. *)
Lemma check_dusk_environment_cases (st : State P) :
  let l := laravelPath (config st) in
  let c1 := duskLine (fs_access P (world st)
                        (path_join [l; lit "vendor/laravel/dusk"])) in
  let c2 := envLine (fs_access P (world st)
                       (path_join [l; lit ".env.dusk.local"])) in
  let detect := lit "php artisan dusk:chrome-driver --detect" in
  if isLaravelProject P (world st) l then
    match execAsync P detect l (world st) with
    | (result, w') =>
        check_dusk_environment st =
        (Return (text_content
                   (environmentText c1 c2
                      (driverLine (match result with
                                   | inr _ => true
                                   | inl _ => false
                                   end))
                      (testsLine (fs_access P w'
                                    (path_join [l; lit "tests/Browser"]))))),
         after_spawn st detect l w')
    end
  else
    check_dusk_environment st =
    (Return (text_content
               (environmentText c1 c2 (driverLine false)
                  (testsLine (fs_access P (world st)
                                (path_join [l; lit "tests/Browser"]))))),
     st).
Proof.
  unfold check_dusk_environment, try_catch, bind, get_config, get_world,
    runCommand, ret, after_spawn, duskLine, envLine, driverLine, testsLine,
    environmentText.
  simpl or_default. cbv zeta.
  destruct (isLaravelProject P (world st) (laravelPath (config st))); simpl.
  - destruct (execAsync P _ _ (world st)) as [[message|[out err]] w'];
      reflexivity.
  - reflexivity.
Qed.

(** X6.  [check_dusk_environment] never throws and always answers with
    four lines.  The ChromeDriver line is the positive one exactly when the
    active project validates and the detect command succeeds: in an invalid
    project nothing is run, the state is unchanged, and the driver is
    reported as not found. *)
Theorem check_dusk_environment_driver (st : State P) :
  exists c1 c2 c4 configured,
    fst (check_dusk_environment st) =
    Return (text_content (environmentText c1 c2 (driverLine configured) c4)) /\
    (configured = true <->
     isLaravelProject P (world st) (laravelPath (config st)) = true /\
     exists out w',
       execAsync P (lit "php artisan dusk:chrome-driver --detect")
         (laravelPath (config st)) (world st) = (inr out, w')) /\
    (isLaravelProject P (world st) (laravelPath (config st)) = false ->
     snd (check_dusk_environment st) = st).
Proof.
  pose proof (check_dusk_environment_cases st) as H. cbv zeta in H.
  destruct (isLaravelProject P (world st) (laravelPath (config st))).
  - destruct (execAsync P _ _ (world st)) as [[message|out] w'] eqn:E;
      rewrite H; do 4 eexists; (split; [reflexivity|]); split;
      try discriminate.
    + split; [discriminate|]. intros (_ & o & w & Eo). discriminate.
    + split; [|reflexivity]. intros _. split; [reflexivity|].
      exists out, w'. reflexivity.
  - rewrite H. do 4 eexists. split; [reflexivity|]. split; [|reflexivity].
    split; [discriminate|]. intros [? _]. discriminate.
Qed.
End EffectFacts.

(** ** Every tool at once *)

Section SessionFacts.
Variable P : Platform.

Lemma effect_run_dusk_test (args : option Arguments) (st : State P) :
  handler_effect true (run_dusk_test args) st.
Proof.
  pose proof (run_dusk_test_cases args st) as H. cbv zeta in H.
  destruct (duskCommand_prefix args) as [rest Hc].
  assert (Hs : startsWith (duskCommand args) (lit "php artisan ") = true).
  { rewrite Hc. unfold startsWith. now rewrite strip_prefix_app. }
  unfold handler_effect.
  destruct (isLaravelProject P (world st) (laravelPath (config st))).
  - destruct (execAsync P (duskCommand args) _ (world st))
      as [[message|[out err]] w'];
      [|destruct H as (results & _ & H)]; rewrite H; simpl;
      (split; [eauto|]); (split; [reflexivity|]); right;
      exists (duskCommand args); auto.
  - rewrite H. simpl. eauto.
Qed.

Lemma effect_check_dusk_environment (st : State P) :
  handler_effect true (check_dusk_environment (P := P)) st.
Proof.
  pose proof (check_dusk_environment_cases st) as H. cbv zeta in H.
  unfold handler_effect.
  destruct (isLaravelProject P (world st) (laravelPath (config st))).
  - destruct (execAsync P _ _ (world st)) as [result w'].
    rewrite H. simpl. split; [eauto|]. split; [reflexivity|]. right.
    exists (lit "php artisan dusk:chrome-driver --detect"). auto.
  - rewrite H. simpl. eauto.
Qed.

Lemma effect_clear_dusk_screenshots (st : State P) :
  handler_effect true (clear_dusk_screenshots (P := P)) st.
Proof.
  pose proof (clear_dusk_screenshots_spec st) as H. cbv zeta in H.
  unfold handler_effect. rewrite H.
  destruct (fs_readdir P (world st) _) as [message|files]; simpl; [eauto|].
  destruct (unlink_each P (world st) _) as [w' [message|]]; simpl; eauto.
Qed.

Lemma effect_install_chrome_driver (args : option Arguments) (st : State P) :
  handler_effect true (install_chrome_driver args) st.
Proof.
  unfold handler_effect, install_chrome_driver, try_catch, bind, runCommand,
    ret.
  simpl or_default.
  set (command := if truthy_string (arg arg_version args) then _ else _).
  assert (Hs : startsWith command (lit "php artisan ") = true).
  { subst command. destruct (truthy_string (arg arg_version args));
      reflexivity. }
  destruct (isLaravelProject P (world st) (laravelPath (config st))); simpl.
  - destruct (execAsync P command _ (world st)) as [[message|[out err]] w'];
      simpl; (split; [eauto|]); (split; [reflexivity|]); right;
      exists command; auto.
  - eauto.
Qed.

Lemma effect_start_dev_server (args : option Arguments) (st : State P) :
  handler_effect false (start_dev_server args) st /\
  spawned (snd (start_dev_server args st)) =
  spawned st ++
  [(lit "php artisan serve --port=" ++ number_toString P (serverPort args),
    laravelPath (config st))].
Proof.
  assert (Hp : (if truthy_number (arg arg_port args)
                then match arg arg_port args with
                     | Some n => n
                     | None => Finite 8000
                     end
                else Finite 8000) = serverPort args).
  { unfold serverPort, truthy_number.
    destruct (arg arg_port args) as [[z| | |]|]; try reflexivity.
    destruct (Z.eqb z 0); reflexivity. }
  unfold handler_effect, start_dev_server. rewrite Hp.
  destruct (exec P _ _ (world st)) as [[message|] w']; simpl;
    (split; [|reflexivity]); (split; [eauto|]); (split; [reflexivity|]);
    right; eexists; (split; [|split; [reflexivity|discriminate]]);
    reflexivity.
Qed.

Lemma effect_list_laravel_projects (st : State P) :
  handler_effect true (list_laravel_projects (P := P)) st.
Proof.
  unfold handler_effect, list_laravel_projects.
  destruct (findLaravelProjects P (world st)); simpl; eauto.
Qed.

Lemma effect_list_dusk_tests (st : State P) :
  handler_effect true (list_dusk_tests (P := P)) st.
Proof.
  unfold handler_effect, list_dusk_tests.
  destruct (glob_sync P (world st) _); simpl; eauto.
Qed.

(** The tool call by cases: unknown, [set_laravel_project], or one of the
    seven handlers that always answer. *)
Lemma callTool_cases (tool : jsstring) (args : option Arguments)
      (st : State P) :
  (~ In tool toolNames /\
   callTool tool args st =
   (Throw (Error (lit "Unknown tool: " ++ tool)), st)) \/
  (tool = lit "set_laravel_project" /\
   callTool tool args st = set_laravel_project args st) \/
  (In tool toolNames /\ tool <> lit "set_laravel_project" /\
   handler_effect (negb (str_eqb tool (lit "start_dev_server")))
     (callTool tool args) st).
Proof.
  unfold callTool.
  destruct (str_eqb tool (lit "set_laravel_project")) eqn:E0.
  { apply str_eqb_eq in E0. right. left. auto. }
  assert (N0 : tool <> lit "set_laravel_project").
  { intros ->. discriminate E0. }
  repeat match goal with
         | |- context [if str_eqb tool ?l then _ else _] =>
             let E := fresh "E" in
             destruct (str_eqb tool l) eqn:E;
             [apply str_eqb_eq in E; right; right;
              split; [rewrite E; unfold toolNames; simpl; tauto|];
              split; [exact N0|]; rewrite ?E; simpl negb|]
         end.
  - apply effect_list_laravel_projects.
  - apply effect_run_dusk_test.
  - apply effect_list_dusk_tests.
  - apply effect_check_dusk_environment.
  - apply effect_clear_dusk_screenshots.
  - apply effect_install_chrome_driver.
  - apply (proj1 (effect_start_dev_server args st)).
  - left. split; [|reflexivity].
    unfold toolNames. simpl.
    intros [H|[H|[H|[H|[H|[H|[H|[H|[]]]]]]]]]; subst tool; discriminate.
Qed.


Lemma callTool_spawns (tool : jsstring) (args : option Arguments)
      (st : State P) :
  spawn_discipline tool st (snd (callTool tool args st)).
Proof.
  unfold spawn_discipline.
  destruct (callTool_cases tool args st)
    as [[N E]|[[-> E]|(I & N & _ & _ & [E|(c & Hc & E & V)])]].
  - rewrite E. exists []. simpl. rewrite app_nil_r.
    repeat split; auto; contradiction.
  - rewrite E. exists [].
    destruct (set_laravel_project args st) as [r st'] eqn:S.
    apply set_laravel_project_changes in S as (_ & S & _). simpl.
    rewrite S, app_nil_r. repeat split; auto; contradiction.
  - exists []. rewrite E, app_nil_r. simpl.
    repeat split; auto; contradiction.
  - exists [(c, laravelPath (config st))]. rewrite E. simpl.
    split; [reflexivity|]. split; [lia|].
    intros c' d [H|[]]. inversion H; subst c' d.
    split; [reflexivity|]. split; [exact Hc|].
    intros Ns. apply V.
    destruct (str_eqb tool (lit "start_dev_server")) eqn:B;
      [|reflexivity].
    apply str_eqb_eq in B. contradiction.
Qed.


(** X9.  No tool call touches the artifact subdirectories of the
    configuration, and the project path changes only in a
    [set_laravel_project] call, to a path that validates in the world of
    that call. *)
Theorem callTool_changes_config (tool : jsstring) (args : option Arguments)
        (st : State P) :
  screenshotsPath (config (snd (callTool tool args st))) =
  screenshotsPath (config st) /\
  logsPath (config (snd (callTool tool args st))) = logsPath (config st) /\
  (config (snd (callTool tool args st)) <> config st ->
   tool = lit "set_laravel_project" /\
   isLaravelProject P (world st)
     (laravelPath (config (snd (callTool tool args st)))) = true).
Proof.
  destruct (callTool tool args st) as [r st'] eqn:E.
  apply callTool_config in E. exact E.
Qed.

Lemma serve_configured (calls : list (jsstring * option Arguments)) :
  forall st : State P,
    screenshotsPath (config (serve calls st)) = screenshotsPath (config st) /\
    logsPath (config (serve calls st)) = logsPath (config st) /\
    exists l,
      spawned (serve calls st) = spawned st ++ l /\
      length l <= length calls /\
      forall c d, In (c, d) l -> startsWith c (lit "php artisan ") = true.
Proof.
  induction calls as [|[tool args] calls IH]; intros st; simpl.
  - split; [reflexivity|]. split; [reflexivity|].
    exists []. rewrite app_nil_r. split; [reflexivity|].
    split; [simpl; lia|]. intros c d [].
  - destruct (IH (snd (callTool tool args st)))
      as (A & B & l2 & E2 & L2 & H2).
    pose proof (callTool_spawns tool args st) as (l1 & E1 & L1 & H1).
    destruct (callTool tool args st) as [r st'] eqn:E. simpl in *.
    pose proof (callTool_config _ _ _ E) as (A1 & B1 & _).
    split; [congruence|]. split; [congruence|].
    exists (l1 ++ l2). rewrite E2, E1, app_assoc. split; [reflexivity|].
    split; [rewrite length_app; simpl; lia|].
    intros c d Hi. apply in_app_or in Hi as [Hi|Hi].
    + now apply (H1 c d).
    + now apply (H2 c d).
Qed.

(** X10.  Over a whole session of tool calls, returned or thrown, the
    artifact subdirectories stay those of the start, and the spawned
    commands grow by at most one [php artisan] command per call. *)
Theorem serve_invariants (calls : list (jsstring * option Arguments))
        (path : jsstring) (w : World P) :
  let st := {| config := initial_config path; world := w; spawned := [] |} in
  screenshotsPath (config (serve calls st)) = lit "tests/Browser/screenshots" /\
  logsPath (config (serve calls st)) = lit "storage/logs/dusk" /\
  length (spawned (serve calls st)) <= length calls /\
  forall c d,
    In (c, d) (spawned (serve calls st)) ->
    startsWith c (lit "php artisan ") = true.
Proof.
  intros st.
  destruct (serve_configured calls st) as (A & B & l & E & L & H).
  rewrite A, B, E. simpl. repeat split; auto.
Qed.

(** X11.  Setting a project and running a command compose: after
    [set_laravel_project] has accepted a path, a command run in the same
    world is spawned in the resolved path, and is not refused. *)
Theorem set_then_run (args : option Arguments) (path command : jsstring)
        (st : State P) :
  arg arg_path args = Some path -> truthy path = true ->
  isLaravelProject P (world st) (path_resolve (process_cwd P) path) = true ->
  let st1 := snd (callTool (lit "set_laravel_project") args st) in
  laravelPath (config st1) = path_resolve (process_cwd P) path /\
  world st1 = world st /\
  spawned (snd (runCommand command None st1)) =
  spawned st ++ [(command, path_resolve (process_cwd P) path)] /\
  forall e, fst (runCommand command None st1) = Throw e ->
            exists message, e = Error (lit "Command failed: " ++ message).
Proof.
  intros Ha Ht Hv st1.
  assert (E : st1 = {| config := set_laravelPath (config st)
                                   (path_resolve (process_cwd P) path);
                       world := world st; spawned := spawned st |}).
  { subst st1. unfold callTool.
    change (str_eqb (lit "set_laravel_project") (lit "set_laravel_project"))
      with true.
    cbv iota. unfold set_laravel_project. rewrite Ha. simpl.
    rewrite Ht. simpl. rewrite Hv. reflexivity. }
  rewrite E. simpl. split; [reflexivity|]. split; [reflexivity|].
  unfold runCommand. simpl. rewrite Hv. simpl.
  destruct (execAsync P command _ (world st)) as [[message|[out err]] w'];
    simpl; split; try reflexivity.
  - intros e H. inversion H. eauto.
  - intros e H. discriminate.
Qed.
End SessionFacts.

Lemma set_then_run_witness :
  let args := Some {| arg_path := Some (lit "app"); arg_test := None;
                      arg_filter := None; arg_group := None;
                      arg_headless := None; arg_version := None;
                      arg_port := None |} in
  arg arg_path args = Some (lit "app") /\ truthy (lit "app") = true /\
  isLaravelProject demo_platform (world stray_state)
    (path_resolve (process_cwd demo_platform) (lit "app")) = true /\
  let st1 := snd (callTool (lit "set_laravel_project") args stray_state) in
  laravelPath (config st1) = lit "/srv/app" /\
  spawned (snd (runCommand (lit "php artisan dusk") None st1)) =
  [(lit "php artisan dusk", lit "/srv/app")].
Proof.
  intros args.
  split; [reflexivity|]. split; [reflexivity|]. split; [reflexivity|].
  pose proof (@set_then_run demo_platform args (lit "app")
                (lit "php artisan dusk") stray_state
                eq_refl eq_refl eq_refl) as H.
  cbv zeta in H. destruct H as (A & _ & B & _).
  intros st1. split; [exact A|exact B].
Defined.

(** * Listing and reading resources *)

Lemma NoDup_map_prefix (pre : jsstring) (l : list jsstring) :
  NoDup l -> NoDup (map (fun x => pre ++ x) l).
Proof.
  induction 1 as [|x l Hx Hl IH]; simpl; constructor; [|exact IH].
  rewrite in_map_iff. intros (y & E & Hy).
  apply app_inv_head in E. now subst.
Qed.

Section ListingFacts.
Variable P : Platform.

Lemma listResources_eq (st : State P) :
  listResources st =
  map screenshotResource
    (filter (fun file => endsWith file (lit ".png"))
       (listing P (world st) (screenshotsDir st))) ++
  map logResource
    (filter (fun file => endsWith file (lit ".log"))
       (listing P (world st) (logsDir st))).
Proof. reflexivity. Qed.

Lemma listResources_in (st : State P) (d : ResourceDescriptor) :
  In d (listResources st) <->
  (exists file,
     In file (listing P (world st) (screenshotsDir st)) /\
     endsWith file (lit ".png") = true /\ d = screenshotResource file) \/
  (exists file,
     In file (listing P (world st) (logsDir st)) /\
     endsWith file (lit ".log") = true /\ d = logResource file).
Proof.
  rewrite listResources_eq, in_app_iff, !in_map_iff.
  split; (intros [(file & E & H)|(file & E & H)]; [left|right]);
    exists file; rewrite filter_In in *; intuition auto.
Qed.

(** X12.  When each artifact directory lists its entries once, every URI
    that [listResources] hands out names one resource: no two descriptors
    share a URI, across the two schemes as well. *)
Theorem listResources_unique_uris (st : State P) :
  NoDup (listing P (world st) (screenshotsDir st)) ->
  NoDup (listing P (world st) (logsDir st)) ->
  NoDup (map (fun d => r_uri d) (listResources st)).
Proof.
  intros H1 H2. rewrite listResources_eq, map_app, !map_map.
  apply NoDup_app.
  - exact (NoDup_map_prefix (lit "screenshot://") (NoDup_filter _ H1)).
  - exact (NoDup_map_prefix (lit "log://") (NoDup_filter _ H2)).
  - intros u Hs Hl. apply in_map_iff in Hs as (f & <- & _).
    apply in_map_iff in Hl as (g & E & _). discriminate E.
Qed.

(** X13.  What is listed can be read: for every descriptor of
    [listResources], reading its URI reads the file of that name in the
    directory it was listed from, never fails on the scheme, leaves the
    state alone, and a returned content carries the URI and the MIME type
    of the listing. *)
Theorem list_then_read (st : State P) (d : ResourceDescriptor) :
  In d (listResources st) ->
  snd (readResource (r_uri d) st) = st /\
  (forall c,
     fst (readResource (r_uri d) st) = Return c ->
     c_uri c = r_uri d /\ c_mimeType c = r_mimeType d) /\
  ((exists file,
      In file (listing P (world st) (screenshotsDir st)) /\
      endsWith file (lit ".png") = true /\
      fst (readResource (r_uri d) st) =
      screenshotAnswer (r_uri d)
        (fs_readFile_base64 P (world st)
           (path_join [laravelPath (config st); screenshotsPath (config st);
                       file]))) \/
   (exists file,
      In file (listing P (world st) (logsDir st)) /\
      endsWith file (lit ".log") = true /\
      fst (readResource (r_uri d) st) =
      logAnswer (r_uri d)
        (fs_readFile P (world st)
           (path_join [laravelPath (config st); logsPath (config st);
                       file])))).
Proof.
  intros H. apply listResources_in in H.
  destruct H as [(file & Hi & He & ->)|(file & Hi & He & ->)];
    cbn [r_uri r_mimeType screenshotResource logResource].
  - rewrite readResource_screenshot. cbn [fst snd].
    split; [reflexivity|]. split.
    + intros c. unfold screenshotAnswer.
      destruct (fs_readFile_base64 P (world st) _); [discriminate|].
      intros E. inversion E. auto.
    + left. exists file. auto.
  - rewrite readResource_log. cbn [fst snd].
    split; [reflexivity|]. split.
    + intros c. unfold logAnswer.
      destruct (fs_readFile P (world st) _); [discriminate|].
      intros E. inversion E. auto.
    + right. exists file. auto.
Qed.

(** X14.  [readResource] never changes the state.  It throws
    [Unknown resource type] for every URI outside the two schemes, and for
    a URI inside them it throws exactly when the file cannot be read, with
    the message of that failure; a returned image carries a blob and no
    text, a returned log text and no blob. *)
Theorem readResource_outcome (uri : jsstring) (st : State P) :
  snd (readResource uri st) = st /\
  (startsWith uri (lit "screenshot://") = false ->
   startsWith uri (lit "log://") = false ->
   fst (readResource uri st) = Throw (Error (lit "Unknown resource type"))) /\
  (forall filename,
     uri = lit "screenshot://" ++ filename ->
     fst (readResource uri st) =
     screenshotAnswer uri
       (fs_readFile_base64 P (world st)
          (path_join [laravelPath (config st); screenshotsPath (config st);
                      filename]))) /\
  (forall filename,
     uri = lit "log://" ++ filename ->
     fst (readResource uri st) =
     logAnswer uri
       (fs_readFile P (world st)
          (path_join [laravelPath (config st); logsPath (config st);
                      filename]))) /\
  (forall c,
     fst (readResource uri st) = Return c ->
     c_uri c = uri /\
     (c_mimeType c = lit "image/png" /\ c_blob c <> None /\ c_text c = None \/
      c_mimeType c = lit "text/plain" /\ c_blob c = None /\
      c_text c <> None)).
Proof.
  split; [|split; [|split; [|split]]].
  - unfold readResource.
    destruct (startsWith uri (lit "screenshot://")).
    + destruct (fs_readFile_base64 P (world st) _); reflexivity.
    + destruct (startsWith uri (lit "log://")); [|reflexivity].
      destruct (fs_readFile P (world st) _); reflexivity.
  - intros H1 H2. unfold readResource. now rewrite H1, H2.
  - intros filename ->. now rewrite readResource_screenshot.
  - intros filename ->. now rewrite readResource_log.
  - intros c. unfold readResource.
    destruct (startsWith uri (lit "screenshot://")).
    + destruct (fs_readFile_base64 P (world st) _); [discriminate|].
      simpl. intros E. inversion E. simpl. split; [reflexivity|].
      left. repeat split. discriminate.
    + destruct (startsWith uri (lit "log://")); [|discriminate].
      destruct (fs_readFile P (world st) _); [discriminate|].
      simpl. intros E. inversion E. simpl. split; [reflexivity|].
      right. repeat split. discriminate.
Qed.
End ListingFacts.

Lemma listResources_unique_uris_witness :
  NoDup (listing disk_platform (world disk_state) (screenshotsDir disk_state)) /\
  NoDup (listing disk_platform (world disk_state) (logsDir disk_state)) /\
  map (fun d => r_uri d) (listResources disk_state) =
  [lit "screenshot://login.png"; lit "log://run.log"] /\
  NoDup (map (fun d => r_uri d) (listResources disk_state)).
Proof.
  assert (A : NoDup (listing disk_platform (world disk_state)
                       (screenshotsDir disk_state))).
  { vm_compute. repeat constructor; simpl; intuition discriminate. }
  assert (B : NoDup (listing disk_platform (world disk_state)
                       (logsDir disk_state))).
  { vm_compute. repeat constructor; simpl; intuition discriminate. }
  split; [exact A|]. split; [exact B|]. split; [vm_compute; reflexivity|].
  exact (@listResources_unique_uris disk_platform disk_state A B).
Defined.

Lemma list_then_read_witness :
  In (screenshotResource (lit "login.png")) (listResources disk_state) /\
  fst (readResource (lit "screenshot://login.png") disk_state) =
  Return {| c_uri := lit "screenshot://login.png";
            c_mimeType := lit "image/png";
            c_blob := Some (lit "PNG"); c_text := None |} /\
  snd (readResource (r_uri (screenshotResource (lit "login.png")))
         disk_state) = disk_state.
Proof.
  assert (A : In (screenshotResource (lit "login.png"))
                (listResources disk_state)) by (vm_compute; auto).
  split; [exact A|]. split; [vm_compute; reflexivity|].
  exact (proj1 (@list_then_read disk_platform disk_state
                  (screenshotResource (lit "login.png")) A)).
Defined.

(** * More about the result parser *)

(** ** Captured text *)

Section CaptureFacts.
Variable R : Type.
Variable Q : nat -> jsstring -> Prop.

(** A successful match leaves captures that hold words of their groups. *)
Lemma matcher_respects (r : regex) :
  respects Q r ->
  forall s c (k : jsstring -> captures -> option R) x,
    captures_ok Q c ->
    matcher r s c k = Some x ->
    exists w s' c',
      s = w ++ s' /\ lang r w /\ k s' c' = Some x /\ captures_ok Q c'.
Proof.
  induction r as [l|p|p|r1 IH1 r2 IH2|i r1 IH1|r1 IH1];
    intros HQ s c k x Hc H; simpl in H.
  - destruct (strip_prefix l s) as [s'|] eqn:E; [|discriminate].
    apply strip_prefix_some in E. exists l, s', c. simpl. auto.
  - apply plus_greedy_sound in H as (w & s' & -> & Hw & Hp & Hk).
    exists w, s', c. simpl. auto.
  - apply plus_lazy_sound in H as (w & s' & -> & Hw & Hp & Hk).
    exists w, s', c. simpl. auto.
  - destruct HQ as [HQ1 HQ2].
    apply (IH1 HQ1) in H as (w1 & s1 & c1 & -> & L1 & H & Hc1); [|exact Hc].
    apply (IH2 HQ2) in H as (w2 & s2 & c2 & -> & L2 & H & Hc2); [|exact Hc1].
    exists (w1 ++ w2), s2, c2. rewrite <- app_assoc.
    repeat split; auto. simpl. exists w1, w2. auto.
  - destruct HQ as [HQ1 HQi].
    apply (IH1 HQ1) in H as (w & s' & c' & -> & L & H & Hc'); [|exact Hc].
    rewrite consumed_app in H.
    exists w, s', (set_capture i w c'). repeat split; auto.
    intros j v. unfold set_capture. destruct (Nat.eqb j i) eqn:E.
    + apply Nat.eqb_eq in E. subst j. intros Ev. inversion Ev; subst v.
      now apply HQi.
    + apply Hc'.
  - destruct (matcher r1 s c _) as [y|] eqn:E.
    + inversion H; subst y.
      apply (IH1 HQ) in E as (w & s' & c' & -> & L & E & Hc'); [|exact Hc].
      destruct (Nat.eqb _ _); [discriminate|].
      exists w, s', c'. simpl. auto.
    + exists [], s, c. simpl. auto.
Qed.
End CaptureFacts.

Lemma search_from_respects (Q : nat -> jsstring -> Prop) (r : regex) :
  respects Q r ->
  forall s idx m, search_from r idx s = Some m -> captures_ok Q (m_caps m).
Proof.
  intros HQ.
  assert (Here : forall s s' c,
             match_here r s = Some (s', c) -> captures_ok Q c).
  { intros s s' c H. unfold match_here in H.
    apply (@matcher_respects _ Q r HQ) in H as (w & s1 & c1 & _ & _ & E & Hc).
    - now inversion E; subst.
    - intros i v. discriminate. }
  induction s as [|a s IH]; intros idx m H; simpl in H.
  - destruct (match_here r []) as [[s' c]|] eqn:E; [|discriminate].
    inversion H; subst m. simpl. eapply Here, E.
  - destruct (match_here r (a :: s)) as [[s' c]|] eqn:E.
    + inversion H; subst m. simpl. eapply Here, E.
    + eapply IH, H.
Qed.

Lemma summaryRegex_captures (output : jsstring) (m : match_result) :
  regex_exec summaryRegex output = Some m ->
  (exists t, m_caps m 1 = Some t /\ digits t) /\
  (m_caps m 3 = None \/ exists f, m_caps m 3 = Some f /\ digits f).
Proof.
  intros H.
  assert (Hc : captures_ok (fun _ v => digits v) (m_caps m)).
  { apply (@search_from_respects (fun _ v => digits v) summaryRegex)
      with (s := output) (idx := 0); [|exact H].
    unfold summaryRegex. cbn [respects lang].
    repeat match goal with |- _ /\ _ => split end;
      try exact I; intros w Hw; exact Hw. }
  apply regex_exec_some in H as (_ & _ & _ & _ & D).
  split.
  - destruct (m_caps m 1) as [t|] eqn:E.
    + exists t. split; [reflexivity|]. exact (Hc 1 t E).
    + exfalso. apply (D 1); [simpl; auto|exact E].
  - destruct (m_caps m 3) as [f|] eqn:E; [|now left].
    right. exists f. split; [reflexivity|]. exact (Hc 3 f E).
Qed.


(** ** Counters and duration *)

Lemma decimal_value_nonneg (ds : jsstring) :
  forallb is_digit ds = true -> (0 <= decimal_value ds)%Z.
Proof.
  unfold decimal_value, digits_value.
  assert (G : forall l a,
             (0 <= a)%Z -> forallb is_digit l = true ->
             (0 <= fold_left (fun acc d => acc * 10 + d) (map digit_val l) a)%Z).
  { induction l as [|c l IH]; intros a Ha Hl; simpl; [exact Ha|].
    simpl in Hl. apply andb_prop in Hl as [Hc Hl]. apply IH; [|exact Hl].
    apply is_digit_range in Hc. unfold digit_val. lia. }
  intros H. apply G; [lia|exact H].
Qed.

Lemma round_double_nonneg (z : Z) :
  (0 <= z)%Z -> nonneg_number (round_double z).
Proof.
  intros Hz. unfold round_double.
  destruct (Z.abs z <? 2 ^ 53)%Z eqn:E; [exact Hz|].
  apply Z.ltb_ge in E. rewrite Z.abs_eq in * by exact Hz.
  assert (Hpos : (0 < z)%Z).
  { assert (0 < 2 ^ 53)%Z by reflexivity. lia. }
  set (e := (Z.log2 z - 52)%Z).
  set (q := (z / 2 ^ e)%Z).
  assert (Hq : (0 <= q)%Z).
  { apply Z_div_nonneg_nonneg; [exact Hz|]. apply Z.pow_nonneg. lia. }
  assert (Hp : (0 <= 2 ^ e)%Z) by (apply Z.pow_nonneg; lia).
  set (q' := match (z mod 2 ^ e ?= 2 ^ (e - 1))%Z with
             | Eq => if Z.even q then q else (q + 1)%Z
             | Lt => q
             | Gt => (q + 1)%Z
             end).
  assert (Hq' : (0 <= q')%Z).
  { subst q'. destruct (z mod 2 ^ e ?= 2 ^ (e - 1))%Z;
      [destruct (Z.even q)| |]; lia. }
  destruct (q' * 2 ^ e <? 2 ^ 1024)%Z.
  - simpl. rewrite Z.sgn_pos by exact Hpos. nia.
  - apply Z.ltb_lt in Hpos. rewrite Hpos. exact I.
Qed.

Lemma parseInt_digits_nonneg (ds : jsstring) :
  digits ds -> nonneg_number (parseInt ds).
Proof.
  intros H. rewrite (parseInt_digits H).
  apply round_double_nonneg, decimal_value_nonneg, H.
Qed.

(** X15.  The counters [total] and [failed] that [parseTestResults]
    returns are never NaN and never negative, for any input; [failed] is
    zero when the matched summary has no [Failures:] clause. *)
Theorem parseTestResults_counters (output : jsstring) :
  exists s,
    parseTestResults output = Return s /\
    nonneg_number (total s) /\ nonneg_number (failed s) /\
    (forall m,
       regex_exec summaryRegex output = Some m -> m_caps m 3 = None ->
       failed s = Finite 0 /\ passed s = num_sub (total s) (Finite 0)).
Proof.
  destruct (parseTestResults_fields output)
    as (s & E & _ & Hp & Hc & _).
  exists s. split; [exact E|].
  destruct (regex_exec summaryRegex output) as [m|] eqn:M.
  - destruct Hc as [Ht Hf].
    destruct (summaryRegex_captures _ M) as [(t & C1 & Dt) C3].
    rewrite C1 in Ht. simpl in Ht.
    assert (F : nonneg_number (failed s)).
    { rewrite Hf. destruct C3 as [C3|(f & C3 & Df)]; rewrite C3.
      - simpl. vm_compute. discriminate.
      - assert (Hor : or_default (Some f) (lit "0") = f).
        { unfold or_default. destruct Df as [Hne _].
          destruct f; [congruence|reflexivity]. }
        rewrite Hor. now apply parseInt_digits_nonneg. }
    split; [rewrite Ht; now apply parseInt_digits_nonneg|].
    split; [exact F|].
    intros m' Em C. inversion Em; subst m'. rewrite C in Hf.
    assert (Hz : failed s = Finite 0) by (rewrite Hf; reflexivity).
    split; [exact Hz|]. now rewrite Hp, Hz.
  - destruct Hc as [Ht Hf]. rewrite Ht, Hf. simpl.
    split; [lia|]. split; [lia|]. intros m' Em. discriminate.
Qed.


(** ** A summary without a failures clause *)

Lemma summaryRegex_plain_line (t a rest : jsstring) :
  digits t -> digits a -> line_end rest ->
  exists m,
    regex_exec summaryRegex
      (lit "Tests: " ++ t ++ lit ", Assertions: " ++ a ++ rest) = Some m /\
    m_caps m 1 = Some t /\ m_caps m 3 = None.
Proof.
  intros [Ht1 Ht2] [Ha1 Ha2] Hrest.
  assert (Hstop : forall h : jsstring -> option (jsstring * captures),
             plus_greedy is_digit rest h = None).
  { intros h. destruct Hrest as [->|[r ->]]; reflexivity. }
  eexists. split.
  - unfold regex_exec. apply search_from_here.
    change (lit "Tests: " ++ t ++ lit ", Assertions: " ++ a ++ rest)
      with (lit "Tests:" ++ lit " " ++ t ++ lit "," ++ lit " " ++
            lit "Assertions:" ++ lit " " ++ a ++ rest).
    unfold match_here, summaryRegex.
    rewrite step_str.
    apply step_plus; [discriminate|reflexivity| |].
    { apply spaces_stop_at_digits. now split. }
    apply step_group_plus; [assumption|assumption|reflexivity|].
    rewrite step_str.
    apply step_plus; [discriminate|reflexivity|reflexivity|].
    rewrite step_str.
    apply step_plus; [discriminate|reflexivity| |].
    { apply spaces_stop_at_digits. now split. }
    apply step_group_plus; [assumption|assumption|exact Hstop|].
    cbn [matcher].
    destruct Hrest as [->|[r ->]]; reflexivity.
  - split; reflexivity.
Qed.

(** X17.  A summary line that ends after the assertions count, at the end
    of the output or of its line, reports no failure: [failed] is 0 and
    [passed] equals [total], for every total up to [2^53]. *)
Theorem parseTestResults_without_failures_clause (t a : N) (rest : jsstring) :
  (t <= 2 ^ 53)%N -> line_end rest ->
  exists s,
    parseTestResults
      (lit "Tests: " ++ decimal t ++ lit ", Assertions: " ++ decimal a ++
       rest) = Return s /\
    total s = Finite (Z.of_N t) /\ failed s = Finite 0 /\
    passed s = Finite (Z.of_N t).
Proof.
  intros Ht Hrest.
  destruct (parseTestResults_fields
              (lit "Tests: " ++ decimal t ++ lit ", Assertions: " ++
               decimal a ++ rest))
    as (s & E & _ & Hp & Hc & _).
  destruct (summaryRegex_plain_line (digits_decimal t) (digits_decimal a)
              Hrest) as (m & Hm & C1 & C3).
  rewrite Hm, C1, C3 in Hc. destruct Hc as [Htot Hfail].
  simpl in Htot.
  rewrite parseInt_digits, decimal_value_decimal in Htot
    by apply digits_decimal.
  assert (B : (Z.of_N t <= 2 ^ 53)%Z).
  { change (2 ^ 53)%Z with (Z.of_N (2 ^ 53)). lia. }
  rewrite round_double_exact in Htot by lia.
  assert (Hz : failed s = Finite 0) by (rewrite Hfail; reflexivity).
  exists s. rewrite Hp, Htot, Hz. simpl num_sub.
  rewrite round_double_exact by lia.
  repeat split; auto. f_equal. lia.
Qed.

Lemma parseTestResults_without_failures_clause_witness :
  (7 <= 2 ^ 53)%N /\ line_end (nl :: lit "Time: 00:02") /\
  exists s,
    parseTestResults
      (lit "Tests: " ++ decimal 7 ++ lit ", Assertions: " ++ decimal 12 ++
       nl :: lit "Time: 00:02") = Return s /\
    total s = Finite 7 /\ failed s = Finite 0 /\ passed s = Finite 7.
Proof.
  assert (A : (7 <= 2 ^ 53)%N) by (vm_compute; discriminate).
  assert (B : line_end (nl :: lit "Time: 00:02")) by (right; eauto).
  split; [exact A|]. split; [exact B|].
  exact (@parseTestResults_without_failures_clause 7 12
           (nl :: lit "Time: 00:02") A B).
Defined.

(** ** Failure records *)

Lemma drop_while_in (p : char -> bool) (s : jsstring) (c : char) :
  In c (drop_while p s) -> In c s.
Proof.
  induction s as [|d s IH]; simpl; [auto|].
  destruct (p d); [auto|]. simpl. auto.
Qed.

Lemma drop_while_nil (p : char -> bool) (s : jsstring) :
  drop_while p s = [] <-> forallb p s = true.
Proof.
  induction s as [|d s IH]; simpl; [tauto|].
  destruct (p d); [exact IH|]. split; discriminate.
Qed.

Lemma drop_while_head (p : char -> bool) (s : jsstring) :
  match drop_while p s with
  | [] => True
  | c :: _ => p c = false
  end.
Proof.
  induction s as [|d s IH]; simpl; [exact I|].
  destruct (p d) eqn:E; [exact IH|exact E].
Qed.

Lemma drop_while_fixed (p : char -> bool) (s : jsstring) :
  match s with [] => True | c :: _ => p c = false end ->
  drop_while p s = s.
Proof. destruct s as [|c s]; simpl; [auto|]. now intros ->. Qed.

Lemma drop_while_idem (p : char -> bool) (s : jsstring) :
  drop_while p (drop_while p s) = drop_while p s.
Proof. apply drop_while_fixed, drop_while_head. Qed.

Lemma drop_while_suffix (p : char -> bool) (s : jsstring) :
  exists pre, s = pre ++ drop_while p s.
Proof.
  induction s as [|d s [pre IH]]; simpl; [exists []; reflexivity|].
  destruct (p d).
  - exists (d :: pre). simpl. now f_equal.
  - exists []. reflexivity.
Qed.

Lemma trim_in (s : jsstring) (c : char) : In c (trim s) -> In c s.
Proof.
  unfold trim. intros H. apply in_rev in H.
  apply drop_while_in in H. apply in_rev in H.
  now apply drop_while_in in H.
Qed.

(** What is trimmed does not start with white space. *)
Lemma trim_head (s : jsstring) :
  match trim s with
  | [] => True
  | c :: _ => is_space c = false
  end.
Proof.
  unfold trim.
  set (a := drop_while is_space s).
  destruct (drop_while_suffix is_space (rev a)) as [pre Hpre].
  set (b := drop_while is_space (rev a)) in *.
  assert (Ha : a = rev b ++ rev pre).
  { rewrite <- rev_app_distr, <- Hpre. now rewrite rev_involutive. }
  pose proof (drop_while_head is_space s) as Hh. fold a in Hh.
  rewrite Ha in Hh. destruct (rev b); [exact I|exact Hh].
Qed.

(** Trimming what is trimmed changes nothing. *)
Lemma trim_idem (s : jsstring) : trim (trim s) = trim s.
Proof.
  unfold trim at 1.
  rewrite (drop_while_fixed is_space (trim s) (trim_head s)).
  unfold trim. now rewrite rev_involutive, drop_while_idem.
Qed.

Lemma trim_nil (s : jsstring) : trim s = [] <-> forallb is_space s = true.
Proof.
  unfold trim. split.
  - intros H. apply (f_equal (@rev char)) in H.
    rewrite rev_involutive in H. simpl in H.
    apply drop_while_nil in H. rewrite forallb_forall in H.
    destruct (drop_while is_space s) as [|c r] eqn:E.
    + now apply drop_while_nil.
    + pose proof (drop_while_head is_space s) as Hh. rewrite E in Hh.
      rewrite (H c) in Hh; [discriminate|].
      apply in_rev. rewrite rev_involutive. now left.
  - intros H. apply drop_while_nil in H. rewrite H. reflexivity.
Qed.

Lemma split_char_no_sep (sep : char) (s : jsstring) :
  forall piece, In piece (split_char sep s) -> ~ In sep piece.
Proof.
  induction s as [|c s IH]; simpl.
  - intros piece [<-|[]] [].
  - destruct (char_eqb c sep) eqn:E.
    + intros piece [<-|H]; [intros []|now apply IH].
    + destruct (split_char sep s) as [|p rest] eqn:S.
      * intros piece [<-|[]] [->|[]].
        unfold char_eqb in E. now rewrite N.eqb_refl in E.
      * intros piece [<-|H].
        -- intros [->|Hi].
           ++ unfold char_eqb in E. now rewrite N.eqb_refl in E.
           ++ apply (IH p); [now left|exact Hi].
        -- apply IH. now right.
Qed.

(** The first line of a text that starts with a character other than the
    separator starts with that character. *)
Lemma split_char_head (sep c : char) (s : jsstring) :
  char_eqb c sep = false ->
  exists first rest, split_char sep (c :: s) = (c :: first) :: rest.
Proof.
  intros E. simpl. rewrite E.
  destruct (split_char sep s) as [|p rest]; eauto.
Qed.

Lemma parseFailure_well_formed (piece : jsstring) (fs : list failure) :
  parseFailure piece = Return fs ->
  forall f, In f fs -> well_formed_failure f.
Proof.
  unfold parseFailure. destruct (truthy (trim piece)) eqn:T.
  2:{ intros E. inversion E. intros f []. }
  destruct (trim piece) as [|c r] eqn:Ep; [discriminate|].
  assert (Hc : is_space c = false).
  { pose proof (trim_head piece) as Hh. now rewrite Ep in Hh. }
  assert (Hnl : char_eqb c nl = false).
  { destruct (char_eqb c nl) eqn:E; [|reflexivity].
    apply char_eqb_eq in E. subst c. discriminate Hc. }
  destruct (@split_char_head nl c r Hnl) as (first & rest & Hs).
  pose proof (split_char_no_sep nl (c :: r)) as Hno.
  rewrite Hs in *. simpl.
  intros E. inversion E; subst fs. intros f [<-|[]].
  unfold well_formed_failure. simpl.
  repeat split.
  - intros Hn. apply trim_nil in Hn. simpl in Hn. rewrite Hc in Hn.
    discriminate.
  - intros Hi. apply trim_in in Hi. apply (Hno (c :: first)); auto.
    now left.
  - apply trim_idem.
  - apply trim_idem.
Qed.

Lemma forEachFailure_in (pieces : list jsstring) :
  forall acc fs,
    forEachFailure pieces acc = Return fs ->
    forall f,
      In f fs ->
      In f acc \/
      exists piece l, In piece pieces /\ parseFailure piece = Return l /\
                      In f l.
Proof.
  induction pieces as [|piece rest IH]; intros acc fs; simpl.
  - intros E. inversion E. auto.
  - destruct (parseFailure piece) as [l|e] eqn:Ep; simpl; [|discriminate].
    intros E f Hf. destruct (IH _ _ E f Hf) as [Ha|(p & l' & Hp & El & Hl)].
    + apply in_app_or in Ha as [Ha|Ha]; [auto|].
      right. exists piece, l. auto.
    + right. exists p, l'. auto.
Qed.

Lemma parseTestResults_failures (output : jsstring) (s : summary) :
  parseTestResults output = Return s ->
  exists pieces, forEachFailure pieces [] = Return (failures s).
Proof.
  unfold parseTestResults.
  set (s1 := match regex_exec summaryRegex output with
             | Some _ => _ | None => _ end).
  set (s2 := match regex_exec durationRegex output with
             | Some _ => _ | None => _ end).
  assert (F : failures s2 = []).
  { subst s2 s1. destruct (regex_exec durationRegex output);
      destruct (regex_exec summaryRegex output); reflexivity. }
  clearbody s2. clear s1.
  destruct (regex_exec failureRegex output) as [m|].
  - destruct (m_caps m 1) as [section|]; [|discriminate].
    destruct (split_regex ordinalRegex section) as [pieces|]; [|discriminate].
    rewrite F.
    destruct (forEachFailure pieces []) as [fs|e] eqn:E; simpl;
      [|discriminate].
    intros H. inversion H. simpl. exists pieces. exact E.
  - intros H. inversion H; subst s. exists []. now rewrite F.
Qed.

(** X18.  Every failure record that [parseTestResults] returns has a test
    name that is not empty and holds no line break, and neither the name
    nor the message starts or ends with white space. *)
Theorem parseTestResults_failures_well_formed (output : jsstring) :
  exists s,
    parseTestResults output = Return s /\
    forall f, In f (failures s) -> well_formed_failure f.
Proof.
  destruct (parseTestResults_fields output) as (s & E & _).
  exists s. split; [exact E|].
  destruct (@parseTestResults_failures output s E) as [pieces Hp].
  intros f Hf.
  destruct (@forEachFailure_in pieces [] (failures s) Hp f Hf)
    as [[]|(p & l & _ & El & Hl)].
  exact (@parseFailure_well_formed p l El f Hl).
Qed.

(** * Selecting a project twice *)

(** X19.  [set_laravel_project] is idempotent: a second call with the
    same arguments gives the same answer as the first and leaves the state
    the first call left. *)
Theorem set_laravel_project_idempotent (P : Platform)
        (args : option Arguments) (st : State P) :
  let st1 := snd (callTool (lit "set_laravel_project") args st) in
  callTool (lit "set_laravel_project") args st1 =
  (fst (callTool (lit "set_laravel_project") args st), st1).
Proof.
  unfold callTool.
  change (str_eqb (lit "set_laravel_project") (lit "set_laravel_project"))
    with true.
  cbv iota zeta. unfold set_laravel_project.
  destruct (negb (truthy_string (arg arg_path args))); [reflexivity|].
  destruct (isLaravelProject P (world st) _) eqn:V; simpl;
    rewrite V; reflexivity.
Qed.

Example idempotent_on_disk :
  let args := Some {| arg_path := Some (lit "app"); arg_test := None;
                      arg_filter := None; arg_group := None;
                      arg_headless := None; arg_version := None;
                      arg_port := None |} in
  let st1 := snd (callTool (lit "set_laravel_project") args
                    disk_stray_state) in
  laravelPath (config st1) = lit "/srv/app" /\
  snd (callTool (lit "set_laravel_project") args st1) = st1.
Proof. split; vm_compute; reflexivity. Qed.
